(** * plexmuse: the LLM recommendation service

    A shallow embedding of [app/services/llm_service.py] (class
    [LLMService]) and the properties of its three operations
    [get_recommendations], [get_artist_recommendations] and
    [get_track_recommendations].

    Conventions of the embedding.
    - A Python [str] is a list of Unicode code points ([pystr]).
    - The objects produced by [json.loads] are the inductive type [value];
      a [dict] is an association list in insertion order with unique keys.
    - A Python exception is a constructor of [exn]; a computation that may
      raise returns a [result].
    - The call to the completion provider is the only interaction with the
      outside: an operation is run against a [provider] and yields the
      requests it sent together with its result.
    - Logger calls have no influence on what is returned or raised and are
      left out.
    - What the interpreter allows is a parameter ([Interpreter]): the digit
      limit of integer conversion and the nesting the decoder can still
      afford.  The process environment is the one of a POSIX system with
      the UTF-8 file system encoding.  Running out of memory is outside the
      model. *)

From Stdlib Require Import ZArith NArith List String Ascii Bool Lia DecimalString.
From stdpp Require Import base option list gmap.
Import ListNotations.

Local Open Scope N_scope.
Local Open Scope list_scope.

(** ** Python strings *)

Definition pystr : Type := list N.

(** A string literal of the source, as a [pystr]. *)
Definition py (s : string) : pystr :=
  List.map N_of_ascii (list_ascii_of_string s).

(** Source literals that contain a double quote are written with a
    backquote in its place; [q] puts the double quotes back (no literal of
    the source contains a backquote). *)
Definition q (s : string) : pystr :=
  List.map (fun c => if c =? 96 then 34 else c) (py s).

Definition str_eqb (a b : pystr) : bool := bool_decide (a = b).

(** [sep.join(items)] *)
Fixpoint join (sep : pystr) (items : list pystr) : pystr :=
  match items with
  | [] => []
  | [x] => x
  | x :: rest => x ++ sep ++ join sep rest
  end.

(** [str.isspace] on one code point (CPython's [_PyUnicode_IsWhitespace]). *)
Definition is_space (c : N) : bool :=
  ((9 <=? c) && (c <=? 13)) || ((28 <=? c) && (c <=? 32))
  || (c =? 133) || (c =? 160) || (c =? 5760)
  || ((8192 <=? c) && (c <=? 8202))
  || (c =? 8232) || (c =? 8233) || (c =? 8239) || (c =? 8287)
  || (c =? 12288).

Fixpoint lstrip (s : pystr) : pystr :=
  match s with
  | c :: rest => if is_space c then lstrip rest else s
  | [] => []
  end.

(** [s.strip()] *)
Definition strip (s : pystr) : pystr := rev (lstrip (rev (lstrip s))).

(** [needle in s] *)
Fixpoint is_prefix (p s : pystr) : bool :=
  match p, s with
  | [], _ => true
  | a :: p', b :: s' => (a =? b) && is_prefix p' s'
  | _ :: _, [] => false
  end.

Fixpoint contains (needle s : pystr) : bool :=
  is_prefix needle s ||
  match s with
  | [] => false
  | _ :: s' => contains needle s'
  end.

(** [s.split(sep)] for a one-character separator. *)
Fixpoint split (sep : N) (s : pystr) : list pystr :=
  match s with
  | [] => [[]]
  | c :: rest =>
      if c =? sep then [] :: split sep rest
      else match split sep rest with
           | l :: ls => (c :: l) :: ls
           | [] => [[c]]
           end
  end.

(** ** Python values, as [json.loads] builds them *)

(** A float is kept as the exact decimal of its literal; of the rounding to
    binary64 only the test against zero is modelled ([float_is_zero]). *)
Inductive pyfloat :=
| FDec (neg : bool) (m : N) (e : Z)     (* (-1)^neg * m * 10^e *)
| FNaN
| FInf (neg : bool).

#[local] Set Warnings "-register-all".
Inductive value :=
| VNone
| VBool (b : bool)
| VInt (z : Z)
| VFloat (f : pyfloat)
| VStr (s : pystr)
| VList (l : list value)
| VDict (d : list (pystr * value)).

(** [m * 10^e] rounds to [0.0]: it is zero or at most half the least
    subnormal, [2^-1075]. *)
Definition float_is_zero (f : pyfloat) : bool :=
  match f with
  | FDec _ m e =>
      (m =? 0) ||
      ((e <? 0)%Z && (Z.of_N m * 2 ^ 1075 <=? 10 ^ (- e))%Z)
  | FNaN | FInf _ => false
  end.

(** Truth value of an object ([bool(v)]). *)
Definition truthy (v : value) : bool :=
  match v with
  | VNone => false
  | VBool b => b
  | VInt z => negb (z =? 0)%Z
  | VFloat f => negb (float_is_zero f)
  | VStr s => negb (bool_decide (s = []))
  | VList l => match l with [] => false | _ => true end
  | VDict d => match d with [] => false | _ => true end
  end.

(** [d[k] = v] *)
Fixpoint dict_set (d : list (pystr * value)) (k : pystr) (v : value)
  : list (pystr * value) :=
  match d with
  | [] => [(k, v)]
  | (k', v') :: rest =>
      if str_eqb k' k then (k', v) :: rest else (k', v') :: dict_set rest k v
  end.

(** [dict(pairs)]: a later pair with the same key replaces the value. *)
Definition dict_of_pairs (pairs : list (pystr * value)) : list (pystr * value) :=
  fold_left (fun d kv => dict_set d (fst kv) (snd kv)) pairs [].

Fixpoint dict_lookup (d : list (pystr * value)) (k : pystr) : option value :=
  match d with
  | [] => None
  | (k', v) :: rest => if str_eqb k' k then Some v else dict_lookup rest k
  end.

(** [d.get(k, dflt)] *)
Definition dict_get (d : list (pystr * value)) (k : pystr) (dflt : value) : value :=
  default dflt (dict_lookup d k).

(** ** The JSON grammar of [json.loads]

    Which documents the decoder of the standard library accepts and what
    they denote, in two passes: the document is cut into tokens by a
    character automaton, and the tokens are assembled by a pushdown
    automaton.  [json_decode] is that grammar alone; the decoder as it runs,
    with the limits of the interpreter and the exception it raises, is
    [json_loads] further down, built from the same two automata. *)

Inductive token :=
| TLBrace | TRBrace | TLBracket | TRBracket | TColon | TComma
| TScalar (v : value).

Definition is_digit (c : N) : bool := (48 <=? c) && (c <=? 57).

Definition is_letter (c : N) : bool :=
  ((65 <=? c) && (c <=? 90)) || ((97 <=? c) && (c <=? 122)).

(** Characters a numeric literal is made of: [-+.eE] and digits. *)
Definition is_number_char (c : N) : bool :=
  is_digit c || (c =? 45) || (c =? 43) || (c =? 46) || (c =? 101) || (c =? 69).

Definition hex_digit (c : N) : option N :=
  if is_digit c then Some (c - 48)
  else if (97 <=? c) && (c <=? 102) then Some (c - 87)
  else if (65 <=? c) && (c <=? 70) then Some (c - 55)
  else None.

Definition digits_value (ds : list N) : N :=
  fold_left (fun a d => 10 * a + (d - 48)) ds 0.

Fixpoint span_digits (s : list N) : list N * list N :=
  match s with
  | c :: rest =>
      if is_digit c then let '(ds, r) := span_digits rest in (c :: ds, r)
      else ([], s)
  | [] => ([], [])
  end.

(** The number grammar of the decoder, matched against a whole literal:
    an optional minus sign; the digit 0 or a digit from 1 to 9 followed by
    digits; optionally a point and one or more digits; optionally e or E,
    an optional sign, and one or more digits. *)
Definition scan_exponent (s : list N) : option (option Z) :=
  match s with
  | [] => Some None
  | c :: rest =>
      if (c =? 101) || (c =? 69) then
        let '(neg, rest') :=
          match rest with
          | 45 :: r => (true, r)
          | 43 :: r => (false, r)
          | _ => (false, rest)
          end in
        match span_digits rest' with
        | ((_ :: _) as ds, []) =>
            let n := Z.of_N (digits_value ds) in
            Some (Some (if neg then (- n)%Z else n))
        | _ => None
        end
      else None
  end.

Definition scan_fraction (s : list N) : option (option (list N) * list N) :=
  match s with
  | 46 :: rest =>
      match span_digits rest with
      | ((_ :: _) as ds, r) => Some (Some ds, r)
      | _ => None
      end
  | _ => Some (None, s)
  end.

Definition scan_number (s : list N) : option value :=
  let '(neg, body) := match s with 45 :: r => (true, r) | _ => (false, s) end in
  match span_digits body with
  | ([], _) => None
  | (d :: ds, r) =>
      if (d =? 48) && negb (bool_decide (ds = [])) then None
      else
        frac ← scan_fraction r;
        ex ← scan_exponent frac.2;
        match frac.1, ex with
        | None, None =>
            let n := Z.of_N (digits_value (d :: ds)) in
            Some (VInt (if neg then (- n)%Z else n))
        | _, _ =>
            let fd := default [] frac.1 in
            Some (VFloat (FDec neg (digits_value (d :: ds ++ fd))
                               (default 0%Z ex - Z.of_nat (length fd))))
        end
  end.

Definition scan_word (s : list N) : option value :=
  if str_eqb s (py "null") then Some VNone
  else if str_eqb s (py "true") then Some (VBool true)
  else if str_eqb s (py "false") then Some (VBool false)
  else if str_eqb s (py "NaN") then Some (VFloat FNaN)
  else if str_eqb s (py "Infinity") then Some (VFloat (FInf false))
  else if str_eqb s (py "-Infinity") then Some (VFloat (FInf true))
  else None.

(** State of the character automaton.  Accumulators are reversed.  In a
    string, [hi] is an escaped high surrogate that waits for an escaped
    low surrogate to pair with. *)
Inductive lex_state :=
| LStart
| LString (acc : list N) (hi : option N)
| LEscape (acc : list N) (hi : option N)
| LUnicode (acc : list N) (hi : option N) (n : nat) (code : N)
| LNumber (chars : list N)
| LWord (chars : list N).

Definition flush (acc : list N) (hi : option N) : list N :=
  match hi with Some h => h :: acc | None => acc end.

Definition lex_start (c : N) : option (lex_state * list token) :=
  if (c =? 32) || (c =? 9) || (c =? 10) || (c =? 13) then Some (LStart, [])
  else if c =? 123 then Some (LStart, [TLBrace])
  else if c =? 125 then Some (LStart, [TRBrace])
  else if c =? 91 then Some (LStart, [TLBracket])
  else if c =? 93 then Some (LStart, [TRBracket])
  else if c =? 58 then Some (LStart, [TColon])
  else if c =? 44 then Some (LStart, [TComma])
  else if c =? 34 then Some (LString [] None, [])
  else if is_digit c || (c =? 45) then Some (LNumber [c], [])
  else if is_letter c then Some (LWord [c], [])
  else None.

Definition escape_char (c : N) : option N :=
  if c =? 34 then Some 34
  else if c =? 92 then Some 92
  else if c =? 47 then Some 47
  else if c =? 98 then Some 8
  else if c =? 102 then Some 12
  else if c =? 110 then Some 10
  else if c =? 114 then Some 13
  else if c =? 116 then Some 9
  else None.

Definition unicode_done (acc : list N) (hi : option N) (code : N) : lex_state :=
  match hi with
  | Some h =>
      if (56320 <=? code) && (code <=? 57343)
      then LString (65536 + (N.lor (N.shiftl (h - 55296) 10) (code - 56320)) :: acc) None
      else if (55296 <=? code) && (code <=? 56319)
      then LString (h :: acc) (Some code)
      else LString (code :: h :: acc) None
  | None =>
      if (55296 <=? code) && (code <=? 56319)
      then LString acc (Some code)
      else LString (code :: acc) None
  end.

Definition lex_step (st : lex_state) (c : N) : option (lex_state * list token) :=
  match st with
  | LStart => lex_start c
  | LString acc hi =>
      if c =? 34 then Some (LStart, [TScalar (VStr (rev (flush acc hi)))])
      else if c =? 92 then Some (LEscape acc hi, [])
      else if c <? 32 then None
      else Some (LString (c :: flush acc hi) None, [])
  | LEscape acc hi =>
      if c =? 117 then Some (LUnicode acc hi 4 0, [])
      else e ← escape_char c; Some (LString (e :: flush acc hi) None, [])
  | LUnicode acc hi n code =>
      d ← hex_digit c;
      let code' := 16 * code + d in
      match n with
      | 1%nat => Some (unicode_done acc hi code', [])
      | _ => Some (LUnicode acc hi (pred n) code', [])
      end
  | LNumber chars =>
      if is_number_char c then Some (LNumber (c :: chars), [])
      else if bool_decide (chars = [45]) && (c =? 73) then Some (LWord [c; 45], [])
      else
        v ← scan_number (rev chars);
        '(st', ts) ← lex_start c;
        Some (st', TScalar v :: ts)
  | LWord chars =>
      if is_letter c then Some (LWord (c :: chars), [])
      else
        v ← scan_word (rev chars);
        '(st', ts) ← lex_start c;
        Some (st', TScalar v :: ts)
  end.

Definition lex_finish (st : lex_state) : option (list token) :=
  match st with
  | LStart => Some []
  | LNumber chars => v ← scan_number (rev chars); Some [TScalar v]
  | LWord chars => v ← scan_word (rev chars); Some [TScalar v]
  | LString _ _ | LEscape _ _ | LUnicode _ _ _ _ => None
  end.

Fixpoint lex (st : lex_state) (doc : pystr) : option (list token) :=
  match doc with
  | [] => lex_finish st
  | c :: rest =>
      '(st', ts) ← lex_step st c;
      ts' ← lex st' rest;
      Some (ts ++ ts')
  end.

(** The pushdown automaton.  A frame is a container under construction:
    the members read so far (reversed) and, for an object, the key whose
    value is being read. *)
Inductive frame :=
| FList (acc : list value)
| FDict (acc : list (pystr * value)) (key : pystr).

Inductive parse_state :=
| SValue (stk : list frame)                                   (* a value *)
| SListOpen (stk : list frame)                                (* value or ] *)
| SDictOpen (stk : list frame)                                (* key or } *)
| SKey (acc : list (pystr * value)) (stk : list frame)        (* key *)
| SColon (acc : list (pystr * value)) (key : pystr) (stk : list frame)
| SListNext (acc : list value) (stk : list frame)             (* , or ] *)
| SDictNext (acc : list (pystr * value)) (stk : list frame)   (* , or } *)
| SDone (v : value).

Definition complete (v : value) (stk : list frame) : parse_state :=
  match stk with
  | [] => SDone v
  | FList acc :: stk' => SListNext (v :: acc) stk'
  | FDict acc key :: stk' => SDictNext ((key, v) :: acc) stk'
  end.

Definition parse_value (t : token) (stk : list frame) : option parse_state :=
  match t with
  | TScalar v => Some (complete v stk)
  | TLBracket => Some (SListOpen stk)
  | TLBrace => Some (SDictOpen stk)
  | _ => None
  end.

Definition parse_step (st : parse_state) (t : token) : option parse_state :=
  match st, t with
  | SValue stk, _ => parse_value t stk
  | SListOpen stk, TRBracket => Some (complete (VList []) stk)
  | SListOpen stk, _ => parse_value t (FList [] :: stk)
  | SDictOpen stk, TRBrace => Some (complete (VDict []) stk)
  | SDictOpen stk, TScalar (VStr k) => Some (SColon [] k stk)
  | SKey acc stk, TScalar (VStr k) => Some (SColon acc k stk)
  | SColon acc k stk, TColon => Some (SValue (FDict acc k :: stk))
  | SListNext acc stk, TComma => Some (SValue (FList acc :: stk))
  | SListNext acc stk, TRBracket => Some (complete (VList (rev acc)) stk)
  | SDictNext acc stk, TComma => Some (SKey acc stk)
  | SDictNext acc stk, TRBrace =>
      Some (complete (VDict (dict_of_pairs (rev acc))) stk)
  | _, _ => None
  end.

Fixpoint parse_tokens (st : parse_state) (ts : list token) : option value :=
  match ts with
  | [] => match st with SDone v => Some v | _ => None end
  | t :: rest => st' ← parse_step st t; parse_tokens st' rest
  end.

Definition json_decode (doc : pystr) : option value :=
  ts ← lex LStart doc; parse_tokens (SValue []) ts.


(** ** Exceptions and results *)

Inductive exn :=
| JSONDecodeError (doc : pystr)   (* raised by json.loads; doc is its argument *)
| ValueError (msg : pystr)
| AttributeError                  (* .get on an object that is not a dict *)
| ProviderError (msg : pystr)     (* whatever the completion call raised *)
| RecursionError                  (* raised by json.loads on deep nesting *)
| UnicodeEncodeError.             (* raised by os.environ on a lone surrogate *)

(** [isinstance(e, ValueError)]: [JSONDecodeError] and [UnicodeEncodeError]
    are subclasses of [ValueError]. *)
Definition is_ValueError (e : exn) : bool :=
  match e with
  | ValueError _ | JSONDecodeError _ | UnicodeEncodeError => true
  | AttributeError | ProviderError _ | RecursionError => false
  end.

Inductive result (A : Type) :=
| Return (a : A)
| Raise (e : exn).
Arguments Return {A} a.
Arguments Raise {A} e.

#[export] Instance result_ret : MRet result := @Return.
#[export] Instance result_bind : MBind result :=
  fun A B f r => match r with Return a => f a | Raise e => Raise e end.

(** [obj.get(k, dflt)]: only a dict has the method. *)
Definition py_get (obj : value) (k : pystr) (dflt : value) : result value :=
  match obj with
  | VDict d => Return (dict_get d k dflt)
  | _ => Raise AttributeError
  end.

(** ** The completion provider *)

Record message := { role : pystr; content : pystr }.

Record request := {
  model : pystr;
  messages : list message;
  max_tokens : Z;
  temperature : pyfloat
}.

(** What [completion(...)] does with a request: it raises, or it answers and
    [response.choices[0].message.content] is a text. *)
Inductive reply :=
| Text (content : pystr)
| Failure (msg : pystr).

Definition provider : Type := request -> reply.

(** A computation that talks to the provider: the requests it sent, in
    order, and what it returned or raised. *)
Definition M (A : Type) : Type := provider -> list request * result A.

#[export] Instance M_ret : MRet M := fun A a _ => ([], Return a).
#[export] Instance M_bind : MBind M :=
  fun A B f m p =>
    let '(sent, r) := m p in
    match r with
    | Return a => let '(sent', r') := f a p in (sent ++ sent', r')
    | Raise e => (sent, Raise e)
    end.

Definition lift {A} (r : result A) : M A := fun _ => ([], r).

Definition completion (req : request) : M pystr :=
  fun p => ([req], match p req with
                   | Text c => Return c
                   | Failure msg => Raise (ProviderError msg)
                   end).

Definition sent {A} (o : list request * result A) : list request := o.1.
Definition outcome {A} (o : list request * result A) : result A := o.2.

(** ** Data supplied by the caller *)

(** Modelled from the spec: the [Artist] model of [app/models.py], which
    is not among the sources: an identifier, a display name that may be
    missing or empty, and an ordered list of genre labels. *)
Record Artist := {
  id : pystr;
  name : option pystr;
  genres : list pystr
}.

(** Modelled from the spec: the track catalog handed to
    [get_track_recommendations]: a dict from artist name to albums, each
    album a dict with a ['name'] and a list of ['tracks'], each track a dict
    with a ['title']. *)
Record Track := { title : pystr }.
Record Album := { album_name : pystr; tracks : list Track }.

Definition nl : pystr := [10].

(** [f"{x}"] for an optional string. *)
Definition format_opt (x : option pystr) : pystr :=
  match x with Some s => s | None => py "None" end.

(** Truth value of an optional string. *)
Definition opt_truthy (x : option pystr) : bool :=
  match x with Some (_ :: _) => true | _ => false end.

(** ** class LLMService *)

Record LLMService := { MODEL_MAPPING : gmap pystr pystr }.

(** A string [os.environ] can encode (UTF-8 with surrogateescape): it holds
    no surrogate other than the escapes U+DC80 to U+DCFF. *)
Definition encodable (s : pystr) : bool :=
  forallb (fun c => negb ((55296 <=? c) && (c <=? 57343))
                    || ((56448 <=? c) && (c <=? 56575))) s.

(** [os.environ[key] = value], for one of the two keys of the constructor:
    the value is encoded, which raises [UnicodeEncodeError] on a lone
    surrogate, then handed to [putenv], which raises [ValueError] on an
    embedded null character; only then is it stored. *)
Definition environ_set (environ : gmap pystr pystr) (key value : pystr)
  : gmap pystr pystr * result unit :=
  if negb (encodable value) then (environ, Raise UnicodeEncodeError)
  else if existsb (N.eqb 0) value
       then (environ, Raise (ValueError (py "embedded null byte")))
       else (<[key := value]> environ, Return tt).

(** [__init__]: puts the keys into [os.environ] and builds the alias
    table.  When a key cannot be stored the constructor raises and no
    service is built; what was stored before stays in the environment. *)
Definition LLMService_init (openai_key : pystr) (anthropic_key : option pystr)
    (environ : gmap pystr pystr) : gmap pystr pystr * result LLMService :=
  let '(environ, stored) := environ_set environ (py "OPENAI_API_KEY") openai_key in
  match stored with
  | Raise e => (environ, Raise e)
  | Return _ =>
      let '(environ, stored) :=
        match anthropic_key with
        | Some ((_ :: _) as k) => environ_set environ (py "ANTHROPIC_API_KEY") k
        | _ => (environ, Return tt)
        end in
      match stored with
      | Raise e => (environ, Raise e)
      | Return _ =>
          (environ,
           Return {| MODEL_MAPPING :=
                       {[ py "gpt-4" := py "gpt-4";
                          py "claude" := py "anthropic/claude-3-5-sonnet-latest" ]} |})
      end
  end.

(** [self.MODEL_MAPPING.get(model, model)] *)
Definition model_id (self : LLMService) (model : pystr) : pystr :=
  default model (MODEL_MAPPING self !! model).

(** ** The interpreter and [json.loads] *)

(** What the decoder depends on besides the document:
    [sys.get_int_max_str_digits()] (0 lifts the limit; 4300 unless it was
    changed; an interpreter without the limit behaves as with 0), and the
    nesting the decoder can still afford when it is called, which depends
    on the recursion limit and on the depth of the calling stack.  The
    model takes three levels of nesting for granted, the nesting of the
    documents the prompts of the service ask for; [nesting_headroom] is what
    the interpreter affords beyond that. *)
Class Interpreter := {
  int_max_str_digits : nat;
  nesting_headroom : nat
}.

(** An interpreter with the default digit limit, 4300, that affords the
    decoder 1000 levels of nesting, the default recursion limit; a call
    from a deeper stack affords less. *)
Definition cpython : Interpreter :=
  {| int_max_str_digits := 4300; nesting_headroom := 997 |}.

(** [str(n)] *)
Definition decimal (n : nat) : pystr :=
  py (NilZero.string_of_uint (Nat.to_uint n)).

(** The [ValueError] of [int] on a literal of more digits than allowed. *)
Definition digits_error (limit digits : nat) : exn :=
  ValueError (py "Exceeds the limit (" ++ decimal limit
              ++ py " digits) for integer string conversion: value has "
              ++ decimal digits
              ++ py " digits; use sys.set_int_max_str_digits() to increase the limit").

(** After the integer part of a number, a fraction (a point and a digit)
    or an exponent (e or E, an optional sign, a digit) extends the match. *)
Definition starts_fraction (r : list N) : bool :=
  match r with
  | 46 :: d :: _ => is_digit d
  | _ => false
  end.

Definition starts_exponent (r : list N) : bool :=
  match r with
  | e :: d :: r' =>
      ((e =? 101) || (e =? 69))
      && (is_digit d
          || (((d =? 43) || (d =? 45))
              && match r' with d' :: _ => is_digit d' | [] => false end))
  | _ => false
  end.

(** The number of digits handed to [int] when the decoder matches a number
    at the start of [s], the characters of a numeric literal: the match is
    the integer part alone (the digit 0, or the whole run of digits) unless
    a fraction or an exponent follows it; what is left unmatched is an
    error only after the conversion. *)
Definition integer_digits (s : list N) : option nat :=
  let body := match s with 45 :: r => r | _ => s end in
  match span_digits body with
  | ([], _) => None
  | (d :: ds, r) =>
      let '(int_part, rest) := if d =? 48 then ([d], ds ++ r) else (d :: ds, r) in
      if starts_fraction rest || starts_exponent rest then None
      else Some (length int_part)
  end.

(** The pushdown automaton is about to read a value. *)
Definition accepts_value (pst : parse_state) : bool :=
  match pst with
  | SValue _ | SListOpen _ => true
  | _ => false
  end.

Definition opens (t : token) : bool :=
  match t with
  | TLBracket | TLBrace => true
  | _ => false
  end.

(** The number of lists and objects that are open. *)
Definition depth (pst : parse_state) : nat :=
  match pst with
  | SValue stk => length stk
  | SListOpen stk | SDictOpen stk | SKey _ stk | SColon _ _ stk
  | SListNext _ stk | SDictNext _ stk => S (length stk)
  | SDone _ => 0
  end.

Section Service.
Context `{ip : Interpreter}.

Definition nesting_limit : nat := 3 + nesting_headroom.

(** The test of [int]: literals of up to 640 digits are never refused. *)
Definition too_many_digits (n : nat) : bool :=
  (640 <? n)%nat && (0 <? int_max_str_digits)%nat && (int_max_str_digits <? n)%nat.

(** What happens when a numeric literal ends (at a character that does not
    continue it, or with the document): where no value may stand this is a
    syntax error; otherwise an integer match is converted, which fails on
    too many digits, before anything after the match is looked at. *)
Definition number_guard (doc : pystr) (lst : lex_state) (pst : parse_state)
    (next : option N) : result unit :=
  match lst with
  | LNumber chars =>
      let continues :=
        match next with
        | Some c => is_number_char c || (bool_decide (chars = [45]) && (c =? 73))
        | None => false
        end in
      if continues then Return tt
      else if negb (accepts_value pst) then Raise (JSONDecodeError doc)
      else match integer_digits (rev chars) with
           | Some n =>
               if too_many_digits n then Raise (digits_error int_max_str_digits n)
               else Return tt
           | None => Return tt
           end
  | _ => Return tt
  end.

(** The tokens of one step go through the pushdown automaton; opening a
    list or an object beyond the nesting the interpreter affords raises
    [RecursionError]. *)
Fixpoint feed (doc : pystr) (pst : parse_state) (ts : list token)
  : result parse_state :=
  match ts with
  | [] => Return pst
  | t :: rest =>
      match parse_step pst t with
      | None => Raise (JSONDecodeError doc)
      | Some pst' =>
          if opens t && (nesting_limit <? depth pst')%nat then Raise RecursionError
          else feed doc pst' rest
      end
  end.

Definition decode_step (doc : pystr) (lst : lex_state) (pst : parse_state) (c : N)
  : result (lex_state * parse_state) :=
  _ ← number_guard doc lst pst (Some c);
  match lex_step lst c with
  | None => Raise (JSONDecodeError doc)
  | Some (lst', ts) => pst' ← feed doc pst ts; Return (lst', pst')
  end.

Definition decode_finish (doc : pystr) (lst : lex_state) (pst : parse_state)
  : result value :=
  _ ← number_guard doc lst pst None;
  match lex_finish lst with
  | None => Raise (JSONDecodeError doc)
  | Some ts =>
      pst' ← feed doc pst ts;
      match pst' with
      | SDone v => Return v
      | _ => Raise (JSONDecodeError doc)
      end
  end.

(** The decoder reads the document once, from left to right, and raises at
    the first character where something fails. *)
Fixpoint decode_run (doc : pystr) (lst : lex_state) (pst : parse_state) (s : pystr)
  : result value :=
  match s with
  | [] => decode_finish doc lst pst
  | c :: rest =>
      '(lst', pst') ← decode_step doc lst pst c;
      decode_run doc lst' pst' rest
  end.

(** [json.loads(doc)] *)
Definition json_loads (doc : pystr) : result value :=
  decode_run doc LStart (SValue []) doc.

(** *** get_recommendations *)

Definition recommendations_context (artists : list Artist) : pystr :=
  (py "Available artists and their genres:" ++ nl) ++
  join nl (List.map (fun a => format_opt (name a) ++ py " - " ++ join (py ", ") (genres a))
                    (List.filter (fun a => opt_truthy (name a)) artists)).

Definition recommendations_system_prompt : pystr :=
  py "You are a music curator helping to create playlists. 
            Analyze the available artists and their genres, then select the most appropriate ones for the requested playlist.
            Return your response as a JSON object with:
            - 'artists': array of 15-20 artist names from the provided list.
            Only include artists from the provided list.".

Definition recommendations_request (self : LLMService) (prompt : pystr)
    (artists : list Artist) (model : pystr) : request :=
  let model_id := model_id self model in
  let artist_context := recommendations_context artists in
  let system_prompt := recommendations_system_prompt in
  {| model := model_id;
     messages :=
       [ {| role := py "system"; content := system_prompt |};
         {| role := py "user";
            content := py "Context: " ++ artist_context ++ nl ++ nl ++
                       py "Create a playlist for: " ++ prompt |} ];
     max_tokens := 1024;
     temperature := FDec false 7 (-1) |}.

Definition get_recommendations (self : LLMService) (prompt : pystr)
    (artists : list Artist) (model : pystr) : M value :=
  response ← completion (recommendations_request self prompt artists model);
  lift (result ← json_loads response;
        py_get result (py "artists") (VList [])).

(** *** get_artist_recommendations *)

Definition artist_context (artists : list Artist) : pystr :=
  (py "Available artists and their genres:" ++ nl) ++
  join nl (List.map (fun a => format_opt (name a) ++ py " - " ++ join (py ", ") (genres a))
                    (List.filter (fun a => opt_truthy (name a)) artists)).

Definition artist_system_prompt : pystr :=
  q "You are a multilingual music curator helping to create playlists. 
            Your responses must ALWAYS be in English, even when the prompt is in another language.
            Analyze the available artists and their genres, then select the most appropriate ones for the requested playlist.
            
            You must ALWAYS respond with valid JSON only, in this exact format:
            {`artists`: [`Artist1`, `Artist2`, `Artist3`]}
            
            Do not add any explanations or other text - just the JSON object.
            Select 10-15 artists that match the mood/theme, only from the provided list.".

Definition artist_request (self : LLMService) (prompt : pystr)
    (artists : list Artist) (model : pystr) : request :=
  let artist_context := artist_context artists in
  let system_prompt := artist_system_prompt in
  {| model := model_id self model;
     messages :=
       [ {| role := py "system"; content := system_prompt |};
         {| role := py "user";
            content := py "Context: " ++ artist_context ++ nl ++ nl ++
                       py "Create a playlist for: " ++ prompt |} ];
     max_tokens := 1024;
     temperature := FDec false 7 (-1) |}.

(** The validator of the two staged operations (the code from
    [content = ....strip()] to the end of the inner [try]); the two copies
    differ in the field and in the message of the [ValueError]. *)
Definition parse (field msg : pystr) (response : pystr) : result value :=
  let content := strip response in
  result ← json_loads content;
  selection ← py_get result field (VList []);
  if negb (truthy selection) then Raise (ValueError msg)
  else Return selection.

Definition get_artist_recommendations (self : LLMService) (prompt : pystr)
    (artists : list Artist) (model : pystr) : M value :=
  response ← completion (artist_request self prompt artists model);
  lift (parse (py "artists") (py "No artists found in response") response).

(** *** get_track_recommendations *)

Definition tracks_context (artist_tracks : list (pystr * list Album)) : pystr :=
  fold_left
    (fun ctx '(artist, albums) =>
       fold_left
         (fun ctx album =>
            fold_left
              (fun ctx track => ctx ++ py "- " ++ title track ++ nl)
              (tracks album)
              (ctx ++ py "Album: " ++ album_name album ++ nl))
         albums
         (ctx ++ nl ++ artist ++ py ":" ++ nl))
    artist_tracks
    (py "Available tracks by artist:" ++ nl).

Definition track_system_prompt : pystr :=
  q "You are a multilingual music curator creating a cohesive playlist.
            Your responses must ALWAYS be in English and contain ONLY a valid JSON object.
            
            Based on the available tracks and the playlist theme, select specific songs that:
            1. Flow well together
            2. Match the requested mood/theme
            3. Create a balanced representation of artists
            
            You must respond with ONLY a JSON object in this exact format:
            {
                `tracks`: [
                    {`artist`: `artist name`, `title`: `track title`}
                ]
            }
            
            Select 20-30 tracks total. Do not add any explanations or additional text.".

Definition track_request (self : LLMService) (prompt : pystr)
    (artist_tracks : list (pystr * list Album)) (model : pystr) : request :=
  let tracks_context := tracks_context artist_tracks in
  let system_prompt := track_system_prompt in
  {| model := model_id self model;
     messages :=
       [ {| role := py "system"; content := system_prompt |};
         {| role := py "user";
            content := py "Context: " ++ tracks_context ++ nl ++ nl ++
                       py "Create a playlist for: " ++ prompt |} ];
     max_tokens := 2048;
     temperature := FDec false 7 (-1) |}.

Definition get_track_recommendations (self : LLMService) (prompt : pystr)
    (artist_tracks : list (pystr * list Album)) (model : pystr) : M value :=
  response ← completion (track_request self prompt artist_tracks model);
  lift (parse (py "tracks") (py "No tracks found in response") response).

(** ** Notions used to state the properties *)

(** The user message of the spec: the fixed template, instantiated with a
    context block and a theme. *)
Definition user_template (context theme : pystr) : pystr :=
  py "Context: " ++ context ++ [10; 10] ++ py "Create a playlist for: " ++ theme.

(** A request made of one system message and one user message that is the
    template applied to [context] and [theme], at temperature 0.7. *)
Definition chat_request (req : request) (context theme : pystr) : Prop :=
  exists instruction,
    messages req =
      [ {| role := py "system"; content := instruction |};
        {| role := py "user"; content := user_template context theme |} ] /\
    temperature req = FDec false 7 (-1).

(** The name an artist is listed under: present and not empty. *)
Definition shown_name (a : Artist) : option pystr :=
  match name a with
  | Some (c :: s) => Some (c :: s)
  | _ => None
  end.

(** One line of the block in the spec's words: the name, then " - ", then
    the genres joined by commas. *)
Definition artist_line (shown : pystr) (labels : list pystr) : pystr :=
  shown ++ py " - " ++ join (py ", ") labels.

(** The lines the spec asks for: one per artist that has a name, in
    catalog order, none for the others. *)
Definition expected_lines (artists : list Artist) : list pystr :=
  omap (fun a => n ← shown_name a; Some (artist_line n (genres a))) artists.

(** Neither the name nor a genre of a listed artist holds a line break. *)
Definition single_line (a : Artist) : Prop :=
  forall n, shown_name a = Some n ->
    ~ In 10 n /\ Forall (fun g => ~ In 10 g) (genres a).

(** The catalog of the spec's end-to-end scenario, with one artist without
    a name added. *)
Definition scenario_catalog : list Artist :=
  [ {| id := py "1"; name := Some (py "Artist 1"); genres := [py "Rock"] |};
    {| id := py "0"; name := Some []; genres := [py "Jazz"] |};
    {| id := py "2"; name := Some (py "Artist 2"); genres := [py "Pop"] |} ].

(** An artist whose name holds a line break. *)
Definition two_line_catalog : list Artist :=
  [ {| id := py "1"; name := Some (py "A" ++ [10] ++ py "B"); genres := [py "Rock"] |} ].

(** The shapes the spec advertises: a list of strings, and a list of
    records with a string artist and a string title. *)
Definition is_str (v : value) : bool :=
  match v with VStr _ => true | _ => false end.

Definition artist_selection_shape (v : value) : bool :=
  match v with VList l => forallb is_str l | _ => false end.

Definition track_record_shape (v : value) : bool :=
  match v with
  | VDict d =>
      match dict_lookup d (py "artist"), dict_lookup d (py "title") with
      | Some (VStr _), Some (VStr _) => true
      | _, _ => false
      end
  | _ => false
  end.

Definition track_selection_shape (v : value) : bool :=
  match v with VList l => forallb track_record_shape l | _ => false end.

Definition no_artists : pystr := py "No artists found in response".
Definition no_tracks : pystr := py "No tracks found in response".

(** Running the character automaton over a piece of a document. *)
Fixpoint lex_run (st : lex_state) (s : pystr) : option (lex_state * list token) :=
  match s with
  | [] => Some (st, [])
  | c :: rest =>
      '(st', ts) ← lex_step st c;
      '(st'', ts') ← lex_run st' rest;
      Some (st'', ts ++ ts')
  end.

(** A character that stands for itself inside a JSON string. *)
Definition plain (c : N) : bool :=
  (32 <=? c) && negb (c =? 34) && negb (c =? 92).

Definition quote (s : pystr) : pystr := 34 :: s ++ [34].

(** The document that lists the given names, quoted and separated by
    commas, under the key artists. *)
Definition artists_document (names : list pystr) : pystr :=
  q "{`artists`: [" ++ join [44] (List.map quote names) ++ py "]}".

Fixpoint item_tokens (names : list pystr) : list token :=
  match names with
  | [] => []
  | [x] => [TScalar (VStr x)]
  | x :: rest => TScalar (VStr x) :: TComma :: item_tokens rest
  end.

(** The provider of a test: it answers every request with one text. *)
Definition mock (text : pystr) : provider := fun _ => Text text.

(** ** Notions used to state the further properties *)

(** The code points [str.strip] removes. *)
Definition space_chars : list N :=
  [9; 10; 11; 12; 13; 28; 29; 30; 31; 32; 133; 160; 5760;
   8192; 8193; 8194; 8195; 8196; 8197; 8198; 8199; 8200; 8201; 8202;
   8232; 8233; 8239; 8287; 12288].

(** What the character automaton does with a code point that [str.strip]
    removes: between tokens it is skipped or refused, and it is never part
    of a number, a word or an escape. *)
Definition skipped_or_refused (c : N) : bool :=
  match lex_start c with
  | None => true
  | Some (LStart, []) => true
  | _ => false
  end
  && negb (c =? 34) && negb (c =? 92) && negb (c =? 117) && negb (c =? 73)
  && match escape_char c with None => true | Some _ => false end
  && match hex_digit c with None => true | Some _ => false end
  && negb (is_number_char c) && negb (is_letter c).

(** What an artist contributes to the prompt: the shown name and the
    genres, for an artist that has a name. *)
Definition listing (artists : list Artist) : list (pystr * list pystr) :=
  omap (fun a => n ← shown_name a; Some (n, genres a)) artists.

(** A text as the sequence of its lines, each closed by a line break. *)
Definition unlines (ls : list pystr) : pystr :=
  List.concat (List.map (fun l => l ++ [10]) ls).

Definition album_lines (album : Album) : list pystr :=
  (py "Album: " ++ album_name album)
  :: List.map (fun t => py "- " ++ title t) (tracks album).

Definition artist_lines (entry : pystr * list Album) : list pystr :=
  [] :: (entry.1 ++ py ":") :: List.flat_map album_lines entry.2.

Definition tracks_lines (artist_tracks : list (pystr * list Album)) : list pystr :=
  py "Available tracks by artist:" :: List.flat_map artist_lines artist_tracks.

(** No artist name, album name or track title holds a line break. *)
Definition entry_single_line (entry : pystr * list Album) : Prop :=
  ~ In 10 entry.1 /\
  Forall (fun album =>
            ~ In 10 (album_name album) /\
            Forall (fun t => ~ In 10 (title t)) (tracks album)) entry.2.

(** A JSON writer for the values a selection is made of (strings, lists
    and objects), in the compact form: no blanks, members separated by a
    comma, key and value by a colon.  Other values are not written. *)
Fixpoint encode (v : value) : pystr :=
  match v with
  | VStr s => quote s
  | VList l => [91] ++ join [44] (List.map encode l) ++ [93]
  | VDict d =>
      [123] ++ join [44] (List.map (fun '(k, x) => quote k ++ [58] ++ encode x) d)
      ++ [125]
  | _ => []
  end.

(** The values [encode] writes faithfully: strings of plain characters,
    lists of such values, objects with plain and distinct keys. *)
Fixpoint writable (v : value) : bool :=
  match v with
  | VStr s => forallb plain s
  | VList l => forallb writable l
  | VDict d =>
      forallb (fun '(k, x) => forallb plain k && writable x) d
      && bool_decide (NoDup (List.map fst d))
  | _ => false
  end.

Fixpoint sep_tokens (groups : list (list token)) : list token :=
  match groups with
  | [] => []
  | [g] => g
  | g :: rest => g ++ TComma :: sep_tokens rest
  end.

(** The tokens of a written value. *)
Fixpoint tokens (v : value) : list token :=
  match v with
  | VList l => [TLBracket] ++ sep_tokens (List.map tokens l) ++ [TRBracket]
  | VDict d =>
      [TLBrace]
      ++ sep_tokens (List.map (fun '(k, x) => TScalar (VStr k) :: TColon :: tokens x) d)
      ++ [TRBrace]
  | _ => [TScalar v]
  end.

(** A track as the model is asked to give it: an object with the artist
    and the title. *)
Definition track_record (entry : pystr * pystr) : value :=
  VDict [(py "artist", VStr entry.1); (py "title", VStr entry.2)].

(** ** Notions used to state the properties of the constructor and of the decoder *)


(** The service the constructor builds when it does not raise. *)
Definition built_service : LLMService :=
  {| MODEL_MAPPING :=
       {[ py "gpt-4" := py "gpt-4";
          py "claude" := py "anthropic/claude-3-5-sonnet-latest" ]} |}.

Definition is_number (v : value) : bool :=
  match v with VInt _ | VFloat _ => true | _ => false end.

Definition int_free (ts : list token) : bool :=
  forallb (fun t => match t with TScalar (VInt _) => false | _ => true end) ts.

(** What the decoder returns when the document ends in state [pst]. *)
Definition finished (doc : pystr) (pst : parse_state) : result value :=
  match pst with
  | SDone v => Return v
  | _ => Raise (JSONDecodeError doc)
  end.

(** A numeric literal that ends. *)
Definition ends_number (chars : list N) (next : option N) : bool :=
  match next with
  | Some c => negb (is_number_char c || (bool_decide (chars = [45]) && (c =? 73)))
  | None => true
  end.

(** The grammar run from the states the decoder is in. *)
Definition grammar (lst : lex_state) (pst : parse_state) (s : pystr) : option value :=
  ts ← lex lst s; parse_tokens pst ts.





(** The nesting of a value. *)
Fixpoint height (v : value) : nat :=
  match v with
  | VList l => S (list_max (List.map height l))
  | VDict d => S (list_max (List.map (fun '(_, x) => height x) d))
  | _ => 0
  end.

(** Reading one written value with the limit on nesting: the automaton
    that is about to read a value and is fed the tokens of [v] ends where
    [v] is complete, if the interpreter affords the nesting. *)
Definition feeds_back (v : value) : Prop :=
  forall doc stk rest,
    (length stk + height v <= nesting_limit)%nat ->
    feed doc (SValue stk) (tokens v ++ rest) = feed doc (complete v stk) rest.

(** * Properties *)

(** ** The alias table *)


Lemma model_mapping_init openai_key anthropic_key environ self :
  (LLMService_init openai_key anthropic_key environ).2 = Return self ->
  self = built_service.
Proof.
  unfold LLMService_init.
  destruct (environ_set environ (py "OPENAI_API_KEY") openai_key) as [env1 [[]|e]];
    [|discriminate].
  destruct (match anthropic_key with
            | Some ((_ :: _) as k) => environ_set env1 (py "ANTHROPIC_API_KEY") k
            | _ => (env1, Return tt)
            end) as [env2 [[]|e]]; [|discriminate].
  now intros [= <-].
Qed.

Lemma model_id_mapped self alias target :
  MODEL_MAPPING self !! alias = Some target -> model_id self alias = target.
Proof. unfold model_id. now intros ->. Qed.

Lemma model_id_unmapped self alias :
  MODEL_MAPPING self !! alias = None -> model_id self alias = alias.
Proof. unfold model_id. now intros ->. Qed.

(** C3. Model resolution depends only on the alias table built by the
    constructor and on the alias: for every service the constructor builds,
    an alias of the table resolves to its entry (gpt-4 to itself, claude to
    a provider-prefixed identifier that is not the string claude), any other
    alias resolves to itself.  The function is total: it returns a string
    for every input. *)
Theorem model_resolution openai_key anthropic_key environ self :
  (LLMService_init openai_key anthropic_key environ).2 = Return self ->
  model_id self (py "gpt-4") = py "gpt-4" /\
  model_id self (py "claude") = py "anthropic/claude-3-5-sonnet-latest" /\
  model_id self (py "claude") <> py "claude" /\
  is_prefix (py "anthropic/") (model_id self (py "claude")) = true /\
  (forall alias target,
      MODEL_MAPPING self !! alias = Some target -> model_id self alias = target) /\
  (forall alias,
      MODEL_MAPPING self !! alias = None -> model_id self alias = alias) /\
  (forall alias,
      alias <> py "gpt-4" -> alias <> py "claude" -> model_id self alias = alias).
Proof.
  intros Hself. apply model_mapping_init in Hself. subst self.
  repeat split.
  - discriminate.
  - apply model_id_mapped.
  - apply model_id_unmapped.
  - intros alias Hgpt Hclaude. apply model_id_unmapped.
    unfold built_service. cbn [MODEL_MAPPING].
    rewrite lookup_insert_ne by congruence.
    apply lookup_singleton_ne. congruence.
Qed.

Lemma model_resolution_witness :
  model_id built_service (py "custom-model-x") = py "custom-model-x".
Proof.
  apply (model_resolution (py "sk-test") None ∅ built_service eq_refl);
    discriminate.
Defined.

(** ** The requests sent to the provider *)

(** An operation that makes one completion call and then validates the
    answer sends exactly that one request, and returns or raises what the
    validator does on the answer. *)
Lemma sent_call {A} (req : request) (k : pystr -> result A) (p : provider) :
  sent ((response ← completion req; lift (k response)) p) = [req].
Proof.
  unfold sent, mbind, M_bind, completion, lift.
  destruct (p req); reflexivity.
Qed.

Lemma outcome_call_text {A} (req : request) (k : pystr -> result A)
    (p : provider) (text : pystr) :
  p req = Text text ->
  outcome ((response ← completion req; lift (k response)) p) = k text.
Proof.
  unfold outcome, mbind, M_bind, completion, lift.
  intros ->. reflexivity.
Qed.

Lemma outcome_call_failure {A} (req : request) (k : pystr -> result A)
    (p : provider) (msg : pystr) :
  p req = Failure msg ->
  outcome ((response ← completion req; lift (k response)) p)
  = Raise (ProviderError msg).
Proof.
  unfold outcome, mbind, M_bind, completion, lift.
  intros ->. reflexivity.
Qed.

(** C8. Whatever the theme, the catalog and the provider, each of the three
    operations sends exactly one request; it consists of a system message
    and a user message equal to the template filled with the rendered
    context block and the theme, and asks for temperature 0.7; the maximum
    output length of track selection is strictly larger than that of either
    artist selection. *)
Theorem completion_requests (self : LLMService) (prompt : pystr)
    (artists : list Artist) (artist_tracks : list (pystr * list Album))
    (model : pystr) (p : provider) :
  exists single stage1 stage2,
    sent (get_recommendations self prompt artists model p) = [single] /\
    sent (get_artist_recommendations self prompt artists model p) = [stage1] /\
    sent (get_track_recommendations self prompt artist_tracks model p) = [stage2] /\
    chat_request single (recommendations_context artists) prompt /\
    chat_request stage1 (artist_context artists) prompt /\
    chat_request stage2 (tracks_context artist_tracks) prompt /\
    (max_tokens stage1 < max_tokens stage2)%Z /\
    (max_tokens single < max_tokens stage2)%Z.
Proof.
  exists (recommendations_request self prompt artists model),
         (artist_request self prompt artists model),
         (track_request self prompt artist_tracks model).
  split; [apply sent_call|].
  split; [apply sent_call|].
  split; [apply sent_call|].
  split; [eexists; split; reflexivity|].
  split; [eexists; split; reflexivity|].
  split; [eexists; split; reflexivity|].
  split; reflexivity.
Qed.

(** ** The system instructions *)

(** C9. The instruction of the staged artist selection asks for 10-15
    artists from the provided list, the instruction of the single-stage
    operation for 15-20 artist names from the provided list, and the
    instruction of track selection for 20-30 tracks; each is the system
    message of its operation's request. *)
Theorem instruction_cardinalities (self : LLMService) (prompt : pystr)
    (artists : list Artist) (artist_tracks : list (pystr * list Album))
    (model : pystr) :
  let instruction req := List.map content (List.firstn 1 (messages req)) in
  instruction (artist_request self prompt artists model) = [artist_system_prompt] /\
  instruction (recommendations_request self prompt artists model)
    = [recommendations_system_prompt] /\
  instruction (track_request self prompt artist_tracks model) = [track_system_prompt] /\
  contains (py "Select 10-15 artists") artist_system_prompt = true /\
  contains (py "only from the provided list") artist_system_prompt = true /\
  contains (py "15-20") artist_system_prompt = false /\
  contains (py "array of 15-20 artist names from the provided list")
    recommendations_system_prompt = true /\
  contains (py "10-15") recommendations_system_prompt = false /\
  contains (py "Select 20-30 tracks") track_system_prompt = true.
Proof.
  cbv zeta.
  repeat (split; [first [reflexivity | vm_compute; reflexivity]|]).
  vm_compute; reflexivity.
Qed.

(** ** The two artist-selection paths *)

(** C10. For every artist list and theme the single-stage operation and the
    staged artist selection build the same context block and the same user
    message. *)
Theorem artist_paths_agree (self : LLMService) (prompt : pystr)
    (artists : list Artist) (model : pystr) :
  recommendations_context artists = artist_context artists /\
  nth_error (messages (recommendations_request self prompt artists model)) 1
  = nth_error (messages (artist_request self prompt artists model)) 1 /\
  nth_error (messages (artist_request self prompt artists model)) 1
  = Some {| role := py "user";
            content := user_template (artist_context artists) prompt |}.
Proof.
  repeat split.
Qed.

(** ** The artist context block, line by line *)

Section SplitJoin.
Variable sep : N.

Lemma split_no_sep (s : pystr) : ~ In sep s -> split sep s = [s].
Proof.
  induction s as [|c s IH]; intros Hs; [reflexivity|].
  simpl. destruct (N.eqb_spec c sep) as [->|_].
  - exfalso. apply Hs. now left.
  - rewrite IH; [reflexivity|]. intros H. apply Hs. now right.
Qed.

Lemma split_app_sep (s rest : pystr) :
  ~ In sep s -> split sep (s ++ sep :: rest) = s :: split sep rest.
Proof.
  induction s as [|c s IH]; intros Hs; simpl.
  - now rewrite N.eqb_refl.
  - destruct (N.eqb_spec c sep) as [->|_].
    + exfalso. apply Hs. now left.
    + rewrite IH; [reflexivity|]. intros H. apply Hs. now right.
Qed.

Lemma split_join (items : list pystr) :
  items <> [] ->
  Forall (fun s => ~ In sep s) items ->
  split sep (join [sep] items) = items.
Proof.
  induction items as [|x items IH]; intros Hne Hall; [congruence|].
  inversion Hall as [|? ? Hx Hitems]; subst.
  destruct items as [|y items].
  - simpl. now apply split_no_sep.
  - change (join [sep] (x :: y :: items)) with (x ++ sep :: join [sep] (y :: items)).
    rewrite split_app_sep by assumption.
    now rewrite IH.
Qed.

End SplitJoin.

Lemma in_join (c : N) (s : pystr) (items : list pystr) :
  In c (join s items) -> In c s \/ exists x, In x items /\ In c x.
Proof.
  induction items as [|x items IH]; [intros []|].
  destruct items as [|y items].
  - simpl. intros H. right. exists x. split; [now left|assumption].
  - change (join s (x :: y :: items)) with (x ++ s ++ join s (y :: items)).
    rewrite !in_app_iff. intros [H|[H|H]].
    + right. exists x. split; [now left|assumption].
    + now left.
    + destruct (IH H) as [?|(z & Hz & Hc)]; [now left|].
      right. exists z. split; [now right|assumption].
Qed.

Lemma expected_lines_cons (a : Artist) (artists : list Artist) :
  expected_lines (a :: artists)
  = match shown_name a with
    | Some n => artist_line n (genres a) :: expected_lines artists
    | None => expected_lines artists
    end.
Proof.
  unfold expected_lines. cbn [omap list_omap].
  destruct (shown_name a); reflexivity.
Qed.

Lemma comprehension_lines (artists : list Artist) :
  List.map (fun a => format_opt (name a) ++ py " - " ++ join (py ", ") (genres a))
           (List.filter (fun a => opt_truthy (name a)) artists)
  = expected_lines artists.
Proof.
  induction artists as [|a artists IH]; [reflexivity|].
  rewrite expected_lines_cons. cbn [List.filter].
  unfold shown_name.
  destruct (name a) as [[|c s]|] eqn:Hname; cbn [opt_truthy List.map];
    rewrite ?Hname, IH; reflexivity.
Qed.

Lemma expected_lines_nonempty (artists : list Artist) :
  (exists a, In a artists /\ shown_name a <> None) ->
  expected_lines artists <> [].
Proof.
  intros (a & Ha & Hn). induction artists as [|b artists IH]; [destruct Ha|].
  rewrite expected_lines_cons.
  destruct Ha as [->|Ha].
  - destruct (shown_name a); [discriminate|congruence].
  - destruct (shown_name b); [discriminate|auto].
Qed.

Lemma expected_lines_single (artists : list Artist) :
  Forall single_line artists ->
  Forall (fun s => ~ In 10 s) (expected_lines artists).
Proof.
  induction 1 as [|a artists Ha _ IH]; [constructor|].
  rewrite expected_lines_cons.
  destruct (shown_name a) as [n|] eqn:Hn; [|assumption].
  constructor; [|assumption].
  destruct (Ha n Hn) as [Hname Hgenres].
  unfold artist_line. rewrite !in_app_iff.
  intros [H|[H|H]]; [now apply Hname| |].
  - vm_compute in H. intuition discriminate.
  - apply in_join in H. destruct H as [H|(g & Hg & Hc)].
    + vm_compute in H. intuition discriminate.
    + rewrite List.Forall_forall in Hgenres. exact (Hgenres g Hg Hc).
Qed.

Lemma context_split (artists : list Artist) :
  expected_lines artists <> [] ->
  Forall (fun s => ~ In 10 s) (expected_lines artists) ->
  split 10 (artist_context artists)
  = py "Available artists and their genres:" :: expected_lines artists.
Proof.
  intros Hne Hall. unfold artist_context, nl.
  rewrite comprehension_lines, <- app_assoc.
  change ([10] ++ ?r) with (10 :: r).
  rewrite split_app_sep.
  - now rewrite split_join.
  - vm_compute. intuition discriminate.
Qed.

(** C4, as amended.  For every catalog with at least one named artist in
    which no listed name and no genre of a listed artist holds a line break,
    the lines of the stage-1 context block (of either artist-selection
    path) are the heading followed by exactly one line per named artist,
    name - comma-joined genres, in catalog order; artists without a name
    contribute no line. *)
Theorem artist_context_lines (artists : list Artist) :
  (exists a, In a artists /\ shown_name a <> None) ->
  Forall single_line artists ->
  split 10 (artist_context artists)
  = py "Available artists and their genres:" :: expected_lines artists /\
  split 10 (recommendations_context artists)
  = py "Available artists and their genres:" :: expected_lines artists.
Proof.
  intros Hnamed Hsingle.
  assert (H : split 10 (artist_context artists)
              = py "Available artists and their genres:" :: expected_lines artists).
  { apply context_split.
    - now apply expected_lines_nonempty.
    - now apply expected_lines_single. }
  split; exact H.
Qed.

Lemma artist_context_lines_witness :
  split 10 (artist_context scenario_catalog)
  = [ py "Available artists and their genres:";
      py "Artist 1 - Rock"; py "Artist 2 - Pop" ].
Proof.
  refine (proj1 (artist_context_lines scenario_catalog _ _)).
  - exists {| id := py "1"; name := Some (py "Artist 1"); genres := [py "Rock"] |}.
    split; [now left|discriminate].
  - unfold scenario_catalog.
    repeat (apply List.Forall_cons; [|]); try apply List.Forall_nil;
      intros n Hn; vm_compute in Hn; try discriminate Hn;
      (split; [injection Hn as <-|
               repeat (apply List.Forall_cons; [|]); try apply List.Forall_nil]);
      vm_compute; intuition discriminate.
Defined.

(** C4 as stated fails: this catalog has one named artist, but its block
    has two lines after the heading, and neither is the artist's line. *)
Lemma artist_context_lines_counterexample :
  (exists a, In a two_line_catalog /\ shown_name a <> None) /\
  expected_lines two_line_catalog = [ py "A" ++ [10] ++ py "B - Rock" ] /\
  split 10 (artist_context two_line_catalog)
  = [ py "Available artists and their genres:"; py "A"; py "B - Rock" ] /\
  split 10 (artist_context two_line_catalog)
  <> py "Available artists and their genres:" :: expected_lines two_line_catalog.
Proof.
  split; [|split; [|split]].
  - eexists. split; [now left|discriminate].
  - reflexivity.
  - vm_compute. reflexivity.
  - intros H. vm_compute in H. discriminate H.
Qed.


(** ** The decoder and the grammar *)

Lemma span_digits_cons (s : list N) x xs r :
  span_digits s = (x :: xs, r) -> exists s', s = x :: s' /\ is_digit x = true.
Proof.
  destruct s as [|c s]; cbn [span_digits]; [discriminate|].
  destruct (is_digit c) eqn:Hc; [|discriminate].
  destruct (span_digits s). intros [= <- _ _]. eauto.
Qed.

Lemma scan_fraction_none (r : list N) frac :
  starts_fraction r = false -> scan_fraction r = Some frac -> frac = (None, r).
Proof.
  unfold scan_fraction, starts_fraction.
  destruct r as [|c r]; [now intros _ [= <-]|].
  destruct (N.eq_dec c 46) as [->|Hc].
  - destruct (span_digits r) as [[|x xs] r'] eqn:E; [discriminate|].
    apply span_digits_cons in E as (s' & -> & Hx). now rewrite Hx.
  - intros _ H. repeat case_match; simplify_eq; reflexivity.
Qed.

Lemma scan_exponent_none (r : list N) ex :
  starts_exponent r = false -> scan_exponent r = Some ex -> ex = None.
Proof.
  unfold scan_exponent, starts_exponent.
  destruct r as [|c r]; [now intros _ [= <-]|].
  destruct ((c =? 101) || (c =? 69)); [|discriminate].
  cbn [andb].
  destruct r as [|d r]; [cbn; discriminate|].
  intros Hs H.
  assert (Hd : forall s x xs, span_digits s = (x :: xs, []) ->
                              exists s', s = x :: s' /\ is_digit x = true)
    by (intros; eapply span_digits_cons; eauto).
  apply orb_false_iff in Hs as [Hs1 Hs2].
  repeat case_match; simplify_eq;
    match goal with
    | E : span_digits _ = (_ :: _, []) |- _ =>
        apply Hd in E as (s' & Es & Hx); simplify_eq
    end;
    cbn in *; congruence.
Qed.

Lemma scan_number_is_number (cs : list N) (v : value) :
  scan_number cs = Some v -> is_number v = true.
Proof.
  unfold scan_number. intros H.
  repeat (case_match; simplify_eq); try discriminate;
    repeat match goal with
           | H : _ ≫= _ = Some _ |- _ => apply bind_Some in H as (? & ? & H)
           end;
    repeat (case_match; simplify_eq); reflexivity.
Qed.

Lemma integer_digits_int (cs : list N) (n : nat) (v : value) :
  integer_digits cs = Some n -> scan_number cs = Some v -> exists z, v = VInt z.
Proof.
  unfold integer_digits, scan_number.
  set (body := match cs with 45 :: r => r | _ => cs end).
  assert (Hbody : (let '(neg, b) := match cs with 45 :: r => (true, r) | _ => (false, cs) end
                   in b) = body).
  { subst body. repeat case_match; simplify_eq; reflexivity. }
  destruct (match cs with 45 :: r => (true, r) | _ => (false, cs) end) as [neg b].
  cbn in Hbody. subst b.
  destruct (span_digits body) as [[|d ds] r]; [discriminate|].
  destruct ((d =? 48) && negb (bool_decide (ds = []))) eqn:Hz; [discriminate|].
  assert (Hrest : (if d =? 48 then ([d], ds ++ r) else (d :: ds, r)).2 = r).
  { destruct (d =? 48); [|reflexivity]. cbn in Hz.
    apply negb_false_iff, bool_decide_eq_true_1 in Hz. now subst. }
  destruct (if d =? 48 then ([d], ds ++ r) else (d :: ds, r)) as [int_part rest].
  cbn in Hrest. subst rest.
  destruct (starts_fraction r || starts_exponent r) eqn:Hs; [discriminate|].
  apply orb_false_iff in Hs as [Hf He]. intros _ H.
  apply bind_Some in H as (frac & Hfrac & H).
  apply (scan_fraction_none _ _ Hf) in Hfrac. subst frac. cbn [fst snd] in H.
  apply bind_Some in H as (ex & Hex & H).
  apply (scan_exponent_none _ _ He) in Hex. subst ex.
  injection H as <-. eauto.
Qed.

Lemma bind_Return {A B} (m : result A) (f : A -> result B) (b : B) :
  m ≫= f = Return b -> exists a, m = Return a /\ f a = Return b.
Proof. destruct m as [a|e]; [eauto|discriminate]. Qed.


Lemma parse_step_number (pst : parse_state) (v : value) :
  accepts_value pst = false -> is_number v = true ->
  parse_step pst (TScalar v) = None.
Proof. destruct pst, v; try discriminate; reflexivity. Qed.

Lemma parse_step_scalar_accepts (pst pst' : parse_state) (v : value) :
  is_number v = true -> parse_step pst (TScalar v) = Some pst' ->
  accepts_value pst = true.
Proof.
  intros Hv H. destruct (accepts_value pst) eqn:E; [reflexivity|].
  now rewrite (parse_step_number _ _ E Hv) in H.
Qed.

Lemma feed_app (doc : pystr) (pst : parse_state) (ts1 ts2 : list token) :
  feed doc pst (ts1 ++ ts2) = pst' ← feed doc pst ts1; feed doc pst' ts2.
Proof.
  revert pst. induction ts1 as [|t ts1 IH]; intros pst; [reflexivity|].
  cbn [app feed]. destruct (parse_step pst t) as [pst'|]; [|reflexivity].
  destruct (opens t && (nesting_limit <? depth pst')%nat); [reflexivity|apply IH].
Qed.

Lemma feed_sound (doc : pystr) (pst pst' : parse_state) (ts : list token) :
  feed doc pst ts = Return pst' ->
  forall rest, parse_tokens pst (ts ++ rest) = parse_tokens pst' rest.
Proof.
  revert pst. induction ts as [|t ts IH]; intros pst; cbn [feed app].
  - now intros [= ->].
  - destruct (parse_step pst t) as [pst1|] eqn:E; [|discriminate].
    destruct (opens t && (nesting_limit <? depth pst1)%nat); [discriminate|].
    intros H rest. cbn [parse_tokens]. rewrite E. cbn. now apply IH.
Qed.



Lemma number_guard_cases (doc : pystr) (lst : lex_state) (pst : parse_state)
    (next : option N) :
  number_guard doc lst pst next = Return tt \/
  exists chars, lst = LNumber chars /\ ends_number chars next = true /\
    (accepts_value pst = false /\
     number_guard doc lst pst next = Raise (JSONDecodeError doc) \/
     exists n, accepts_value pst = true /\
       integer_digits (rev chars) = Some n /\ too_many_digits n = true /\
       number_guard doc lst pst next = Raise (digits_error int_max_str_digits n)).
Proof.
  destruct lst as [| | | |chars|]; try (now left).
  unfold number_guard, ends_number.
  destruct (match next with
            | Some c => is_number_char c || (bool_decide (chars = [45]) && (c =? 73))
            | None => false
            end) eqn:Hc; [now left|].
  assert (Hend : match next with
                 | Some c => negb (is_number_char c
                                   || (bool_decide (chars = [45]) && (c =? 73)))
                 | None => true
                 end = true)
    by (destruct next; [now rewrite Hc|reflexivity]).
  destruct (accepts_value pst) eqn:Ha; cbn [negb].
  - destruct (integer_digits (rev chars)) as [n|] eqn:Hn; [|now left].
    destruct (too_many_digits n) eqn:Ht; [|now left].
    right. exists chars. split; [reflexivity|]. split; [exact Hend|].
    right. exists n. auto.
  - right. exists chars. split; [reflexivity|]. split; [exact Hend|]. now left.
Qed.

Lemma lex_step_number_ends (chars : list N) (c : N) st ts :
  ends_number chars (Some c) = true ->
  lex_step (LNumber chars) c = Some (st, ts) ->
  exists v ts', ts = TScalar v :: ts' /\ scan_number (rev chars) = Some v.
Proof.
  cbn [ends_number lex_step]. intros H. apply negb_true_iff in H.
  apply orb_false_iff in H as [-> ->]. intros H.
  apply bind_Some in H as (v & Hv & H).
  apply bind_Some in H as ([st' ts'] & _ & [= <- <-]). eauto.
Qed.

Lemma lex_finish_number (chars : list N) ts :
  lex_finish (LNumber chars) = Some ts ->
  exists v, ts = [TScalar v] /\ scan_number (rev chars) = Some v.
Proof.
  cbn [lex_finish]. intros H. apply bind_Some in H as (v & Hv & [= <-]). eauto.
Qed.


Lemma decode_sound (doc : pystr) (lst : lex_state) (pst : parse_state) (s : pystr)
    (v : value) :
  decode_run doc lst pst s = Return v -> grammar lst pst s = Some v.
Proof.
  unfold grammar. revert lst pst. induction s as [|c s IH]; intros lst pst.
  - cbn [decode_run lex]. unfold decode_finish. intros H.
    apply bind_Return in H as (_ & _ & H).
    destruct (lex_finish lst) as [ts|]; [|discriminate]. cbn.
    apply bind_Return in H as (pst' & Hf & H).
    destruct pst'; try discriminate. injection H as ->.
    rewrite <- (app_nil_r ts). now rewrite (feed_sound _ _ _ _ Hf).
  - cbn [decode_run lex]. intros H.
    apply bind_Return in H as ([lst' pst'] & Hstep & H).
    unfold decode_step in Hstep. apply bind_Return in Hstep as (_ & _ & Hstep).
    destruct (lex_step lst c) as [[lst1 ts0]|]; [|discriminate]. cbn.
    apply bind_Return in Hstep as (pst1 & Hf & [= <- <-]).
    specialize (IH _ _ H). destruct (lex lst1 s) as [ts1|]; [|discriminate].
    cbn in *. now rewrite (feed_sound _ _ _ _ Hf).
Qed.



Lemma int_free_app (ts1 ts2 : list token) :
  int_free (ts1 ++ ts2) = int_free ts1 && int_free ts2.
Proof. apply forallb_app. Qed.

(** On a document whose tokens hold no integer, the decoder is the two
    automata one after the other, with the limit on nesting. *)
Lemma decode_bridge (doc : pystr) (lst : lex_state) (pst : parse_state) (s : pystr)
    (ts : list token) :
  lex lst s = Some ts -> int_free ts = true ->
  decode_run doc lst pst s = pst' ← feed doc pst ts; finished doc pst'.
Proof.
  revert lst pst ts. induction s as [|c s IH]; intros lst pst ts.
  - cbn [lex decode_run]. intros Hl Hfree. unfold decode_finish.
    destruct (number_guard_cases doc lst pst None)
      as [Hg|(chars & -> & _ & [[Ha Hg]|(n & _ & Hn & _ & Hg)])];
      rewrite Hg; cbn.
    + rewrite Hl. reflexivity.
    + apply lex_finish_number in Hl as (v & -> & Hv). cbn [feed].
      now rewrite (parse_step_number _ _ Ha (scan_number_is_number _ _ Hv)).
    + apply lex_finish_number in Hl as (v & -> & Hv).
      destruct (integer_digits_int _ _ _ Hn Hv) as [z ->]. discriminate.
  - cbn [lex decode_run]. intros Hl Hfree.
    destruct (lex_step lst c) as [[lst1 ts0]|] eqn:Es; [|discriminate].
    cbn in Hl. destruct (lex lst1 s) as [ts1|] eqn:El; [|discriminate].
    cbn in Hl. injection Hl as <-.
    rewrite int_free_app in Hfree. apply andb_true_iff in Hfree as [Hf0 Hf1].
    unfold decode_step.
    destruct (number_guard_cases doc lst pst (Some c))
      as [Hg|(chars & -> & He & [[Ha Hg]|(n & _ & Hn & _ & Hg)])];
      rewrite Hg; cbn.
    + rewrite Es, feed_app.
      destruct (feed doc pst ts0) as [pst1|e]; cbn; [|reflexivity].
      now apply IH.
    + apply (lex_step_number_ends _ _ _ _ He) in Es as (v & ts' & -> & Hv).
      cbn [app feed].
      now rewrite (parse_step_number _ _ Ha (scan_number_is_number _ _ Hv)).
    + apply (lex_step_number_ends _ _ _ _ He) in Es as (v & ts' & -> & Hv).
      destruct (integer_digits_int _ _ _ Hn Hv) as [z ->]. discriminate.
Qed.

(** The document named in a failure plays no part in a success. *)
Lemma feed_return_doc (doc doc' : pystr) (pst pst' : parse_state) (ts : list token) :
  feed doc pst ts = Return pst' -> feed doc' pst ts = Return pst'.
Proof.
  revert pst. induction ts as [|t ts IH]; intros pst; cbn [feed]; [auto|].
  destruct (parse_step pst t) as [pst1|]; [|discriminate].
  destruct (opens t && (nesting_limit <? depth pst1)%nat); [discriminate|apply IH].
Qed.

Lemma number_guard_return_doc (doc doc' : pystr) lst pst next :
  number_guard doc lst pst next = Return tt ->
  number_guard doc' lst pst next = Return tt.
Proof.
  unfold number_guard. destruct lst; auto.
  repeat case_match; auto; discriminate.
Qed.

Lemma decode_return_doc (doc doc' : pystr) lst pst (s : pystr) (v : value) :
  decode_run doc lst pst s = Return v -> decode_run doc' lst pst s = Return v.
Proof.
  revert lst pst. induction s as [|c s IH]; intros lst pst; cbn [decode_run].
  - unfold decode_finish. intros H. apply bind_Return in H as ([] & Hg & H).
    rewrite (number_guard_return_doc _ doc' _ _ _ Hg). cbn.
    destruct (lex_finish lst) as [ts|]; [|discriminate].
    apply bind_Return in H as (pst' & Hf & H).
    rewrite (feed_return_doc _ doc' _ _ _ Hf). cbn.
    destruct pst'; try discriminate. exact H.
  - intros H. apply bind_Return in H as ([lst' pst'] & Hstep & H).
    unfold decode_step in *. apply bind_Return in Hstep as ([] & Hg & Hstep).
    rewrite (number_guard_return_doc _ doc' _ _ _ Hg). cbn.
    destruct (lex_step lst c) as [[lst1 ts0]|]; [|discriminate].
    apply bind_Return in Hstep as (pst1 & Hf & [= <- <-]).
    rewrite (feed_return_doc _ doc' _ _ _ Hf). cbn. now apply IH.
Qed.

(** ** Documents the limits cannot reach *)










(** ** The validator *)

Lemma json_loads_sound (doc : pystr) (v : value) :
  json_loads doc = Return v -> json_decode doc = Some v.
Proof. intros H. exact (decode_sound _ _ _ _ _ H). Qed.



Lemma is_prefix_app (needle rest : pystr) :
  is_prefix needle (needle ++ rest) = true.
Proof.
  induction needle as [|c needle IH]; [reflexivity|].
  cbn [app is_prefix]. now rewrite N.eqb_refl, IH.
Qed.


Section Validator.
Variables field msg : pystr.

(** The validator by cases on what the decoder makes of the trimmed
    text. *)
Lemma parse_cases (response : pystr) :
  parse field msg response =
  match json_loads (strip response) with
  | Raise e => Raise e
  | Return (VDict d) =>
      if truthy (dict_get d field (VList []))
      then Return (dict_get d field (VList []))
      else Raise (ValueError msg)
  | Return _ => Raise AttributeError
  end.
Proof.
  unfold parse.
  destruct (json_loads (strip response)) as [[| | | | | |d]|e]; try reflexivity.
  cbn. destruct (truthy (dict_get d field (VList []))); reflexivity.
Qed.

Lemma dict_get_absent d : dict_lookup d field = None ->
  dict_get d field (VList []) = VList [].
Proof. unfold dict_get. now intros ->. Qed.

Lemma dict_get_present d v : dict_lookup d field = Some v ->
  dict_get d field (VList []) = v.
Proof. unfold dict_get. now intros ->. Qed.

Lemma parse_return (response : pystr) (v : value) :
  parse field msg response = Return v <->
  exists d, json_loads (strip response) = Return (VDict d) /\
            dict_lookup d field = Some v /\ truthy v = true.
Proof.
  rewrite parse_cases. split.
  - destruct (json_loads (strip response)) as [[| | | | | |d]|e]; try discriminate.
    intros H. exists d. split; [reflexivity|].
    unfold dict_get in H.
    destruct (dict_lookup d field) as [w|]; cbn in H.
    + destruct (truthy w) eqn:Hw; [|discriminate]. injection H as ->. auto.
    + discriminate.
  - intros (d & -> & Hv & Ht). rewrite (dict_get_present _ _ Hv), Ht. reflexivity.
Qed.

Lemma parse_object (response : pystr) d :
  json_loads (strip response) = Return (VDict d) ->
  parse field msg response =
  match dict_lookup d field with
  | Some v => if truthy v then Return v else Raise (ValueError msg)
  | None => Raise (ValueError msg)
  end.
Proof.
  intros H. rewrite parse_cases, H. unfold dict_get.
  destruct (dict_lookup d field); reflexivity.
Qed.







(** C7, as amended.  For every response that the decoder turns into a JSON
    object, the validator checks emptiness and nothing else: when the
    expected field is present and truthy its value is returned unchanged,
    whatever its shape; when it is present and falsy, or absent, the
    ValueError is raised; so a value that is returned is the value of the
    field and is never empty, but need not have the advertised shape. *)
Theorem parse_checks_emptiness_only (response : pystr) d :
  json_loads (strip response) = Return (VDict d) ->
  (forall v, dict_lookup d field = Some v -> truthy v = true ->
             parse field msg response = Return v) /\
  (forall v, dict_lookup d field = Some v -> truthy v = false ->
             parse field msg response = Raise (ValueError msg)) /\
  (dict_lookup d field = None ->
   parse field msg response = Raise (ValueError msg)) /\
  (forall w, parse field msg response = Return w ->
             dict_lookup d field = Some w /\ truthy w = true).
Proof.
  intros Hd. rewrite (parse_object _ _ Hd).
  split; [intros v -> ->; reflexivity|].
  split; [intros v -> ->; reflexivity|].
  split; [intros ->; reflexivity|].
  intros w. destruct (dict_lookup d field) as [v|]; [|discriminate].
  destruct (truthy v) eqn:Ht; [|discriminate]. intros [= <-]. auto.
Qed.

End Validator.

(** ** The order of a selection *)

Lemma lex_run_app st s1 s2 :
  lex_run st (s1 ++ s2) =
  '(st', ts) ← lex_run st s1;
  '(st'', ts') ← lex_run st' s2;
  Some (st'', ts ++ ts').
Proof.
  revert st. induction s1 as [|c s1 IH]; intros st; cbn.
  - destruct (lex_run st s2) as [[? ?]|]; reflexivity.
  - destruct (lex_step st c) as [[st1 ts1]|]; cbn; [|reflexivity].
    rewrite IH.
    destruct (lex_run st1 s1) as [[st2 ts2]|]; cbn; [|reflexivity].
    destruct (lex_run st2 s2) as [[st3 ts3]|]; cbn; [|reflexivity].
    now rewrite app_assoc.
Qed.

Lemma lex_app st s1 s2 :
  lex st (s1 ++ s2) =
  '(st', ts) ← lex_run st s1;
  ts' ← lex st' s2;
  Some (ts ++ ts').
Proof.
  revert st. induction s1 as [|c s1 IH]; intros st; cbn.
  - destruct (lex st s2); reflexivity.
  - destruct (lex_step st c) as [[st1 ts1]|]; cbn; [|reflexivity].
    rewrite IH.
    destruct (lex_run st1 s1) as [[st2 ts2]|]; cbn; [|reflexivity].
    destruct (lex st2 s2) as [ts3|]; cbn; [|reflexivity].
    now rewrite app_assoc.
Qed.

Lemma lex_step_plain acc c :
  plain c = true ->
  lex_step (LString acc None) c = Some (LString (c :: acc) None, []).
Proof.
  unfold plain. rewrite !andb_true_iff, !negb_true_iff.
  intros [[Hge Hq] Hb]. cbn. rewrite Hq, Hb.
  apply N.leb_le in Hge.
  destruct (N.ltb_spec c 32); [lia|reflexivity].
Qed.

Lemma lex_run_plain acc s :
  forallb plain s = true ->
  lex_run (LString acc None) s = Some (LString (rev s ++ acc) None, []).
Proof.
  revert acc. induction s as [|c s IH]; intros acc Hs; [reflexivity|].
  cbn [forallb] in Hs. apply andb_true_iff in Hs as [Hc Hs].
  cbn [lex_run]. rewrite (lex_step_plain _ _ Hc). cbn.
  rewrite (IH _ Hs). cbn. now rewrite <- app_assoc.
Qed.

Lemma lex_run_quote s :
  forallb plain s = true ->
  lex_run LStart (quote s) = Some (LStart, [TScalar (VStr s)]).
Proof.
  intros Hs. unfold quote. cbn [lex_run]. cbn.
  rewrite lex_run_app, (lex_run_plain _ _ Hs). cbn.
  now rewrite app_nil_r, rev_involutive.
Qed.

Lemma lex_run_items names :
  Forall (fun s => forallb plain s = true) names ->
  lex_run LStart (join [44] (List.map quote names)) = Some (LStart, item_tokens names).
Proof.
  induction 1 as [|x names Hx Hnames IH]; [reflexivity|].
  destruct names as [|y names].
  - cbn [List.map join item_tokens]. now apply lex_run_quote.
  - change (join [44] (List.map quote (x :: y :: names)))
      with (quote x ++ [44] ++ join [44] (List.map quote (y :: names))).
    rewrite lex_run_app, (lex_run_quote _ Hx). cbn [mbind option_bind app lex_run].
    change (lex_step LStart 44) with (Some (LStart, [TComma])).
    cbn [mbind option_bind]. rewrite IH. reflexivity.
Qed.

Lemma lex_artists_document names :
  Forall (fun s => forallb plain s = true) names ->
  lex LStart (artists_document names)
  = Some ([TLBrace; TScalar (VStr (py "artists")); TColon; TLBracket]
          ++ item_tokens names ++ [TRBracket; TRBrace]).
Proof.
  intros Hnames. unfold artists_document.
  rewrite lex_app.
  replace (lex_run LStart (q "{`artists`: ["))
    with (Some (LStart, [TLBrace; TScalar (VStr (py "artists")); TColon; TLBracket]))
    by (vm_compute; reflexivity).
  cbn [mbind option_bind].
  rewrite lex_app, (lex_run_items _ Hnames). cbn [mbind option_bind].
  replace (lex LStart (py "]}")) with (Some [TRBracket; TRBrace])
    by (vm_compute; reflexivity).
  reflexivity.
Qed.

Lemma strip_fixed (c d : N) (s : pystr) :
  is_space c = false -> is_space d = false ->
  strip (c :: s ++ [d]) = c :: s ++ [d].
Proof.
  intros Hc Hd. unfold strip. cbn [lstrip]. rewrite Hc.
  change (c :: s ++ [d]) with ([c] ++ s ++ [d]).
  rewrite !rev_app_distr. cbn [rev app lstrip]. rewrite Hd.
  change (d :: rev s ++ [c]) with ([d] ++ rev s ++ [c]).
  rewrite !rev_app_distr, rev_involutive. reflexivity.
Qed.

Lemma strip_artists_document names :
  strip (artists_document names) = artists_document names.
Proof.
  assert (E : artists_document names
              = 123 :: (List.tl (q "{`artists`: [")
                        ++ join [44] (List.map quote names) ++ [93]) ++ [125]).
  { unfold artists_document.
    change (q "{`artists`: [") with (123 :: List.tl (q "{`artists`: [")).
    change (py "]}") with ([93] ++ [125]).
    cbn [app]. now rewrite <- !app_assoc. }
  rewrite E. now apply strip_fixed.
Qed.

(** ** Written values and the decoder *)

Section ValueInduction.
Variable P : value -> Prop.
Hypothesis HNone : P VNone.
Hypothesis HBool : forall b, P (VBool b).
Hypothesis HInt : forall z, P (VInt z).
Hypothesis HFloat : forall f, P (VFloat f).
Hypothesis HStr : forall s, P (VStr s).
Hypothesis HList : forall l, Forall P l -> P (VList l).
Hypothesis HDict : forall d, Forall (fun kv => P kv.2) d -> P (VDict d).

Fixpoint value_nested_ind (v : value) : P v :=
  match v with
  | VNone => HNone
  | VBool b => HBool b
  | VInt z => HInt z
  | VFloat f => HFloat f
  | VStr s => HStr s
  | VList l =>
      HList l ((fix items (l : list value) : Forall P l :=
                  match l with
                  | [] => @List.Forall_nil _ P
                  | x :: r => @List.Forall_cons _ P x r (value_nested_ind x) (items r)
                  end) l)
  | VDict d =>
      HDict d ((fix members (d : list (pystr * value))
                  : Forall (fun kv => P kv.2) d :=
                  match d with
                  | [] => @List.Forall_nil _ _
                  | (k, x) :: r =>
                      @List.Forall_cons _ (fun kv => P kv.2) (k, x) r
                        (value_nested_ind x) (members r)
                  end) d)
  end.

End ValueInduction.

Lemma Forall_guarded {A} (ok : A -> bool) (R : A -> Prop) (l : list A) :
  Forall (fun x => ok x = true -> R x) l -> forallb ok l = true -> Forall R l.
Proof.
  induction 1 as [|x l Hx _ IH]; cbn [forallb]; [constructor|].
  intros H. apply andb_true_iff in H as [H1 H2]. constructor; auto.
Qed.

Lemma lex_run_join {A} (f : A -> pystr) (g : A -> list token) (l : list A) :
  Forall (fun x => lex_run LStart (f x) = Some (LStart, g x)) l ->
  lex_run LStart (join [44] (List.map f l))
  = Some (LStart, sep_tokens (List.map g l)).
Proof.
  induction 1 as [|x l Hx Hl IH]; [reflexivity|].
  destruct l as [|y l].
  - cbn [List.map join sep_tokens]. exact Hx.
  - change (join [44] (List.map f (x :: y :: l)))
      with (f x ++ [44] ++ join [44] (List.map f (y :: l))).
    change (sep_tokens (List.map g (x :: y :: l)))
      with (g x ++ TComma :: sep_tokens (List.map g (y :: l))).
    rewrite lex_run_app, Hx. cbn [mbind option_bind app lex_run].
    change (lex_step LStart 44) with (Some (LStart, [TComma])).
    cbn [mbind option_bind]. rewrite IH. reflexivity.
Qed.

Lemma lex_run_encode (v : value) :
  writable v = true -> lex_run LStart (encode v) = Some (LStart, tokens v).
Proof.
  induction v as [| | | |s|l IH|d IH] using value_nested_ind; try discriminate.
  - apply lex_run_quote.
  - cbn [writable]. intros Hl.
    change (encode (VList l)) with ([91] ++ join [44] (List.map encode l) ++ [93]).
    change (tokens (VList l))
      with ([TLBracket] ++ sep_tokens (List.map tokens l) ++ [TRBracket]).
    rewrite lex_run_app. cbn [mbind option_bind lex_run app].
    change (lex_step LStart 91) with (Some (LStart, [TLBracket])).
    cbn [mbind option_bind].
    rewrite lex_run_app, (lex_run_join encode tokens l (Forall_guarded _ _ _ IH Hl)).
    reflexivity.
  - cbn [writable]. intros Hd. apply andb_true_iff in Hd as [Hd _].
    change (encode (VDict d))
      with ([123] ++ join [44] (List.map (fun '(k, x) => quote k ++ [58] ++ encode x) d)
            ++ [125]).
    change (tokens (VDict d))
      with ([TLBrace]
            ++ sep_tokens (List.map (fun '(k, x) => TScalar (VStr k) :: TColon :: tokens x) d)
            ++ [TRBrace]).
    rewrite lex_run_app. cbn [mbind option_bind lex_run].
    change (lex_step LStart 123) with (Some (LStart, [TLBrace])).
    cbn [mbind option_bind].
    rewrite lex_run_app,
      (lex_run_join _ (fun '(k, x) => TScalar (VStr k) :: TColon :: tokens x) d);
      [reflexivity|].
    clear -IH Hd. induction IH as [|[k x] d Hx _ IHd]; [constructor|].
    cbn [forallb] in Hd. apply andb_true_iff in Hd as [Hkx Hd].
    apply andb_true_iff in Hkx as [Hk Hw].
    constructor; [|auto]. cbn [snd] in Hx.
    rewrite lex_run_app, (lex_run_quote _ Hk). cbn [mbind option_bind].
    change ([58] ++ encode x) with (58 :: encode x). cbn [lex_run].
    change (lex_step LStart 58) with (Some (LStart, [TColon])).
    cbn [mbind option_bind]. rewrite (Hx Hw). reflexivity.
Qed.

Lemma dict_set_fresh (d : list (pystr * value)) (k : pystr) (v : value) :
  ~ In k (List.map fst d) -> dict_set d k v = d ++ [(k, v)].
Proof.
  induction d as [|[k' v'] d IH]; [reflexivity|].
  cbn [List.map fst In dict_set app]. intros H.
  unfold str_eqb. rewrite bool_decide_eq_false_2 by (intros ->; apply H; now left).
  rewrite IH; [reflexivity|]. intros Hk. apply H. now right.
Qed.

Lemma dict_of_pairs_distinct (d : list (pystr * value)) :
  List.NoDup (List.map fst d) -> dict_of_pairs d = d.
Proof.
  unfold dict_of_pairs.
  assert (G : forall pairs d0,
             List.NoDup (List.map fst (d0 ++ pairs)) ->
             fold_left (fun d kv => dict_set d kv.1 kv.2) pairs d0 = d0 ++ pairs).
  { induction pairs as [|[k v] pairs IH]; intros d0 H; cbn [fold_left].
    - now rewrite app_nil_r.
    - cbn [fst snd]. rewrite dict_set_fresh.
      + rewrite IH; rewrite <- app_assoc; [reflexivity|exact H].
      + rewrite List.map_app in H. cbn [List.map fst] in H.
        apply List.NoDup_remove_2 in H. rewrite in_app_iff in *. tauto. }
  intros H. exact (G d [] H).
Qed.


Lemma tokens_head (v : value) :
  exists t ts, tokens v = t :: ts /\
    forall stk, parse_step (SListOpen stk) t = parse_step (SValue (FList [] :: stk)) t.
Proof.
  destruct v; cbn [tokens app]; eexists; eexists; split; try reflexivity;
    intros stk; reflexivity.
Qed.

Lemma list_max_in (n : nat) (l : list nat) : In n l -> (n <= list_max l)%nat.
Proof.
  intros H. pose proof (proj1 (list_max_le l (list_max l)) (Nat.le_refl _)) as A.
  rewrite List.Forall_forall in A. now apply A.
Qed.

Lemma feed_list_items (l : list value) :
  l <> [] -> Forall feeds_back l ->
  forall doc acc stk rest,
    (S (length stk) + list_max (List.map height l) <= nesting_limit)%nat ->
    feed doc (SValue (FList acc :: stk))
         (sep_tokens (List.map tokens l) ++ TRBracket :: rest)
    = feed doc (complete (VList (rev acc ++ l)) stk) rest.
Proof.
  intros Hne H. induction H as [|x l Hx Hl IH]; [congruence|].
  intros doc acc stk rest Hd. cbn [List.map list_max] in Hd.
  change (list_max (height x :: List.map height l))
    with (Nat.max (height x) (list_max (List.map height l))) in Hd.
  destruct l as [|y l].
  - cbn [List.map sep_tokens]. rewrite Hx by (cbn [length]; lia).
    cbn [complete feed parse_step opens andb rev]. reflexivity.
  - change (sep_tokens (List.map tokens (x :: y :: l)))
      with (tokens x ++ TComma :: sep_tokens (List.map tokens (y :: l))).
    rewrite <- app_assoc, Hx by (cbn [length]; lia).
    cbn [complete app feed parse_step opens andb].
    rewrite IH by (discriminate || (cbn [length]; lia)).
    cbn [rev]. now rewrite <- app_assoc.
Qed.

Lemma feed_dict_members (d : list (pystr * value)) :
  d <> [] -> Forall (fun kv => feeds_back kv.2) d ->
  forall doc acc stk rest,
    (S (length stk) + list_max (List.map (fun '(_, x) => height x) d)
     <= nesting_limit)%nat ->
    feed doc (SKey acc stk)
      (sep_tokens (List.map (fun '(k, x) => TScalar (VStr k) :: TColon :: tokens x) d)
       ++ TRBrace :: rest)
    = feed doc (complete (VDict (dict_of_pairs (rev acc ++ d))) stk) rest.
Proof.
  intros Hne H. induction H as [|[k x] d Hx Hd IH]; [congruence|].
  intros doc acc stk rest Hb. cbn [snd] in Hx. cbn [List.map] in Hb.
  change (list_max (height x :: ?r)) with (Nat.max (height x) (list_max r)) in Hb.
  destruct d as [|[k' x'] d].
  - cbn [List.map sep_tokens app feed parse_step opens andb].
    rewrite Hx by (cbn [length]; lia).
    cbn [complete feed parse_step opens andb rev]. reflexivity.
  - change (sep_tokens (List.map (fun '(k, x) => TScalar (VStr k) :: TColon :: tokens x)
                                 ((k, x) :: (k', x') :: d)))
      with ((TScalar (VStr k) :: TColon :: tokens x)
            ++ TComma
               :: sep_tokens (List.map (fun '(k, x) => TScalar (VStr k) :: TColon :: tokens x)
                                       ((k', x') :: d))).
    rewrite <- app_assoc.
    cbn [app feed parse_step opens andb].
    rewrite Hx by (cbn [length]; lia).
    cbn [complete app feed parse_step opens andb].
    rewrite IH by (discriminate || (cbn [length]; lia)).
    cbn [rev]. now rewrite <- app_assoc.
Qed.

Lemma feed_written (v : value) : writable v = true -> feeds_back v.
Proof.
  induction v as [| | | |s|l IH|d IH] using value_nested_ind; try discriminate.
  - intros _ doc stk rest _. reflexivity.
  - cbn [writable]. intros Hl doc stk rest Hd.
    pose proof (Forall_guarded _ _ _ IH Hl) as Hall.
    change (height (VList l)) with (S (list_max (List.map height l))) in Hd.
    change (tokens (VList l))
      with ([TLBracket] ++ sep_tokens (List.map tokens l) ++ [TRBracket]).
    rewrite <- !app_assoc.
    cbn [app feed parse_step parse_value opens andb depth].
    destruct (Nat.ltb_spec nesting_limit (S (length stk))); [lia|].
    destruct l as [|x l]; [reflexivity|].
    replace (feed doc (SListOpen stk)
               (sep_tokens (List.map tokens (x :: l)) ++ TRBracket :: rest))
      with (feed doc (SValue (FList [] :: stk))
              (sep_tokens (List.map tokens (x :: l)) ++ TRBracket :: rest)).
    + now rewrite feed_list_items by (discriminate || assumption || lia).
    + destruct (tokens_head x) as (t & ts & E & Ht).
      destruct l as [|y l]; cbn [List.map sep_tokens]; rewrite E;
        cbn [app feed]; now rewrite Ht.
  - cbn [writable]. intros Hd doc stk rest Hb.
    apply andb_true_iff in Hd as [Hd Hkeys].
    apply bool_decide_eq_true_1 in Hkeys.
    assert (Hall : Forall (fun kv => feeds_back kv.2) d).
    { clear -IH Hd. induction IH as [|[k x] d Hx _ IHd]; [constructor|].
      cbn [forallb] in Hd. apply andb_true_iff in Hd as [Hkx Hd].
      apply andb_true_iff in Hkx as [_ Hw]. constructor; auto. }
    change (height (VDict d))
      with (S (list_max (List.map (fun '(_, x) => height x) d))) in Hb.
    change (tokens (VDict d))
      with ([TLBrace]
            ++ sep_tokens (List.map (fun '(k, x) => TScalar (VStr k) :: TColon :: tokens x) d)
            ++ [TRBrace]).
    rewrite <- !app_assoc.
    cbn [app feed parse_step parse_value opens andb depth].
    destruct (Nat.ltb_spec nesting_limit (S (length stk))); [lia|].
    destruct d as [|[k x] d]; [reflexivity|].
    replace (feed doc (SDictOpen stk)
               (sep_tokens (List.map (fun '(k, x) => TScalar (VStr k) :: TColon :: tokens x)
                                     ((k, x) :: d)) ++ TRBrace :: rest))
      with (feed doc (SKey [] stk)
              (sep_tokens (List.map (fun '(k, x) => TScalar (VStr k) :: TColon :: tokens x)
                                    ((k, x) :: d)) ++ TRBrace :: rest)).
    + rewrite feed_dict_members by (discriminate || assumption || lia).
      cbn [rev app]. rewrite dict_of_pairs_distinct; [reflexivity|].
      now apply NoDup_ListNoDup.
    + destruct d as [|[k' x'] d]; reflexivity.
Qed.

Lemma int_free_sep (groups : list (list token)) :
  forallb int_free groups = true -> int_free (sep_tokens groups) = true.
Proof.
  induction groups as [|g groups IH]; [reflexivity|].
  cbn [forallb]. intros H. apply andb_true_iff in H as [Hg H].
  destruct groups as [|g' groups]; [exact Hg|].
  change (sep_tokens (g :: g' :: groups)) with (g ++ TComma :: sep_tokens (g' :: groups)).
  rewrite int_free_app, Hg. cbn. now apply IH.
Qed.

Lemma tokens_int_free (v : value) : writable v = true -> int_free (tokens v) = true.
Proof.
  induction v as [| | | |s|l IH|d IH] using value_nested_ind; try discriminate.
  - reflexivity.
  - cbn [writable]. intros Hl.
    change (tokens (VList l))
      with ([TLBracket] ++ sep_tokens (List.map tokens l) ++ [TRBracket]).
    rewrite !int_free_app, int_free_sep; [reflexivity|].
    rewrite forallb_forall. intros ts Hts. apply in_map_iff in Hts as (x & <- & Hx).
    pose proof (Forall_guarded _ _ _ IH Hl) as Hall.
    rewrite List.Forall_forall in Hall. now apply Hall.
  - cbn [writable]. intros Hd. apply andb_true_iff in Hd as [Hd _].
    change (tokens (VDict d))
      with ([TLBrace]
            ++ sep_tokens (List.map (fun '(k, x) => TScalar (VStr k) :: TColon :: tokens x) d)
            ++ [TRBrace]).
    rewrite !int_free_app, int_free_sep; [reflexivity|].
    clear -IH Hd. induction IH as [|[k x] d Hx _ IHd]; [reflexivity|].
    cbn [forallb] in Hd. apply andb_true_iff in Hd as [Hkx Hd].
    apply andb_true_iff in Hkx as [_ Hw].
    cbn [List.map forallb]. rewrite IHd by assumption.
    cbn [snd] in Hx. specialize (Hx Hw). unfold int_free in *.
    cbn [forallb andb]. now rewrite Hx.
Qed.

Lemma lex_encode (v : value) :
  writable v = true -> lex LStart (encode v) = Some (tokens v).
Proof.
  intros Hv.
  rewrite <- (app_nil_r (encode v)), lex_app, (lex_run_encode _ Hv).
  cbn [mbind option_bind lex lex_finish]. now rewrite app_nil_r.
Qed.

(** The decoder reads back what the writer wrote, if the interpreter
    affords the nesting of the value. *)
Lemma json_loads_written (v : value) :
  writable v = true -> (height v <= nesting_limit)%nat ->
  json_loads (encode v) = Return v.
Proof.
  intros Hv Hh. unfold json_loads.
  rewrite (decode_bridge _ _ _ _ _ (lex_encode _ Hv) (tokens_int_free _ Hv)).
  rewrite <- (app_nil_r (tokens v)), (feed_written _ Hv) by (cbn [length]; lia).
  reflexivity.
Qed.
(** ** The selection the validator returns *)

(** The document that lists names is the written form of a selection, up
    to a blank: it has the same tokens. *)
Lemma item_tokens_written names :
  item_tokens names = sep_tokens (List.map tokens (List.map VStr names)).
Proof.
  induction names as [|x names IH]; [reflexivity|].
  destruct names as [|y names]; [reflexivity|].
  change (item_tokens (x :: y :: names))
    with (TScalar (VStr x) :: TComma :: item_tokens (y :: names)).
  rewrite IH. reflexivity.
Qed.

Lemma names_flat names : list_max (List.map height (List.map VStr names)) = 0%nat.
Proof. induction names as [|x names IH]; [reflexivity|]. cbn. exact IH. Qed.

Lemma names_writable names :
  Forall (fun s => forallb plain s = true) names ->
  forallb writable (List.map VStr names) = true.
Proof.
  induction 1 as [|x names Hx _ IH]; [reflexivity|].
  cbn [List.map forallb writable]. now rewrite Hx, IH.
Qed.

Lemma loads_artists_document names :
  Forall (fun s => forallb plain s = true) names ->
  json_loads (artists_document names)
  = Return (VDict [(py "artists", VList (List.map VStr names))]).
Proof.
  intros Hnames. unfold json_loads.
  set (v := VDict [(py "artists", VList (List.map VStr names))]).
  assert (Hw : writable v = true).
  { unfold v. cbn [writable forallb]. rewrite (names_writable _ Hnames).
    vm_compute. reflexivity. }
  assert (Ht : [TLBrace; TScalar (VStr (py "artists")); TColon; TLBracket]
               ++ item_tokens names ++ [TRBracket; TRBrace] = tokens v).
  { rewrite item_tokens_written. unfold v.
    cbn [tokens List.map sep_tokens app]. now rewrite <- app_assoc. }
  pose proof (lex_artists_document _ Hnames) as Hlex. rewrite Ht in Hlex.
  rewrite (decode_bridge _ _ _ _ _ Hlex (tokens_int_free _ Hw)).
  rewrite <- (app_nil_r (tokens v)), (feed_written _ Hw).
  - reflexivity.
  - unfold v. cbn [height List.map list_max length]. rewrite names_flat.
    unfold nesting_limit. cbn. lia.
Qed.

(** C5. On success the validator returns the sequence of the document as
    it stands: for every non-empty list of names (of plain characters) the
    document that lists them under artists yields exactly that list, in
    that order, repeated names included; in particular the spec's text
    with A and B yields A, B; and any value returned is the value the
    decoder put under the expected field. *)
Theorem parse_returns_sequence_as_is :
  (forall (names : list pystr) (msg : pystr),
      names <> [] ->
      Forall (fun s => forallb plain s = true) names ->
      parse (py "artists") msg (artists_document names)
      = Return (VList (List.map VStr names))) /\
  parse (py "artists") no_artists (q "{`artists`: [`A`,`B`]}")
  = Return (VList [VStr (py "A"); VStr (py "B")]) /\
  (forall (field msg response : pystr) (v : value),
      parse field msg response = Return v ->
      exists d, json_decode (strip response) = Some (VDict d) /\
                dict_lookup d field = Some v).
Proof.
  split; [|split].
  - intros names msg Hne Hnames.
    rewrite parse_cases, strip_artists_document,
      (loads_artists_document _ Hnames).
    replace (dict_get _ _ _) with (VList (List.map VStr names)) by reflexivity.
    destruct names; [congruence|reflexivity].
  - vm_compute. reflexivity.
  - intros field msg response v H. apply parse_return in H.
    destruct H as (d & Hd & Hv & _). apply json_loads_sound in Hd. eauto.
Qed.

(** ** Empty selections *)

Lemma outcome_call {A} (req : request) (k : pystr -> result A) (p : provider) :
  outcome ((response ← completion req; lift (k response)) p)
  = match p req with
    | Text text => k text
    | Failure msg => Raise (ProviderError msg)
    end.
Proof.
  destruct (p req) eqn:E.
  - now apply outcome_call_text.
  - now apply outcome_call_failure.
Qed.

(** The two staged operations never return a falsy value, so never an
    empty list. *)
Lemma staged_selection_truthy (self : LLMService) (prompt : pystr)
    (artists : list Artist) (artist_tracks : list (pystr * list Album))
    (model : pystr) (p : provider) (v : value) :
  (outcome (get_artist_recommendations self prompt artists model p) = Return v ->
   truthy v = true) /\
  (outcome (get_track_recommendations self prompt artist_tracks model p) = Return v ->
   truthy v = true).
Proof.
  unfold get_artist_recommendations, get_track_recommendations.
  rewrite !outcome_call.
  split.
  - destruct (p _); [|discriminate].
    intros H. apply parse_return in H. now destruct H as (d & _ & _ & Ht).
  - destruct (p _); [|discriminate].
    intros H. apply parse_return in H. now destruct H as (d & _ & _ & Ht).
Qed.

(** C2 fails on the single-stage operation.  When the model answers with an
    empty artists list, or with an object without the field,
    [get_recommendations] returns the empty list as a success, where the
    staged artist selection raises the ValueError on the same answers. *)
Theorem get_recommendations_returns_empty (self : LLMService) (prompt : pystr)
    (artists : list Artist) (model : pystr) :
  outcome (get_recommendations self prompt artists model (mock (q "{`artists`: []}")))
  = Return (VList []) /\
  outcome (get_recommendations self prompt artists model (mock (q "{}")))
  = Return (VList []) /\
  outcome (get_artist_recommendations self prompt artists model (mock (q "{`artists`: []}")))
  = Raise (ValueError no_artists) /\
  outcome (get_artist_recommendations self prompt artists model (mock (q "{}")))
  = Raise (ValueError no_artists).
Proof.
  unfold get_recommendations, get_artist_recommendations.
  rewrite !outcome_call. unfold mock.
  repeat split; vm_compute; reflexivity.
Qed.

(** * Further properties *)

(** ** The constructor and the process environment *)





(** A key with a null character: the constructor raises and the
    environment is as before. *)
Example init_null_key :
  LLMService_init [115; 107; 0] None ∅
  = (∅, Raise (ValueError (py "embedded null byte"))).
Proof. reflexivity. Qed.

(** An Anthropic key with a lone surrogate: the constructor raises after
    the OpenAI key was stored. *)
Example init_surrogate_key :
  let built := LLMService_init (py "sk") (Some [55296]) ∅ in
  built.2 = Raise UnicodeEncodeError /\
  built.1 !! py "OPENAI_API_KEY" = Some (py "sk").
Proof. split; reflexivity. Qed.



(** ** Failures of the provider *)

(** X3.  When the completion call raises, each of the three operations
    raises that same exception after that one request: the call is not
    repeated, and nothing is returned in place of the failure. *)
Theorem provider_failure_propagates (self : LLMService) (prompt : pystr)
    (artists : list Artist) (artist_tracks : list (pystr * list Album))
    (model : pystr) (p : provider) (msg : pystr) :
  (p (recommendations_request self prompt artists model) = Failure msg ->
   get_recommendations self prompt artists model p
   = ([recommendations_request self prompt artists model],
      Raise (ProviderError msg))) /\
  (p (artist_request self prompt artists model) = Failure msg ->
   get_artist_recommendations self prompt artists model p
   = ([artist_request self prompt artists model], Raise (ProviderError msg))) /\
  (p (track_request self prompt artist_tracks model) = Failure msg ->
   get_track_recommendations self prompt artist_tracks model p
   = ([track_request self prompt artist_tracks model], Raise (ProviderError msg))).
Proof.
  unfold get_recommendations, get_artist_recommendations, get_track_recommendations.
  unfold mbind, M_bind, completion, lift.
  repeat split; intros ->; reflexivity.
Qed.

(** ** The single-stage validator *)

Lemma single_stage_cases (self : LLMService) (prompt : pystr)
    (artists : list Artist) (model : pystr) (p : provider) (text : pystr) :
  p (recommendations_request self prompt artists model) = Text text ->
  outcome (get_recommendations self prompt artists model p)
  = match json_loads text with
    | Raise e => Raise e
    | Return (VDict d) => Return (default (VList []) (dict_lookup d (py "artists")))
    | Return _ => Raise AttributeError
    end.
Proof.
  intros Hp. unfold get_recommendations. rewrite outcome_call, Hp.
  destruct (json_loads text) as [[| | | | | |d]|e]; reflexivity.
Qed.


(** ** What the staged operations return *)

(** X5.  A value returned by either staged operation is truthy: it is never an
    empty list, an empty string, an empty object, null, false or zero. *)
Theorem staged_selection_never_empty (self : LLMService) (prompt : pystr)
    (artists : list Artist) (artist_tracks : list (pystr * list Album))
    (model : pystr) (p : provider) (v : value) :
  outcome (get_artist_recommendations self prompt artists model p) = Return v \/
  outcome (get_track_recommendations self prompt artist_tracks model p) = Return v ->
  truthy v = true /\ v <> VList [] /\ v <> VStr [] /\ v <> VDict [] /\
  v <> VNone /\ v <> VBool false /\ v <> VInt 0.
Proof.
  intros H.
  assert (Ht : truthy v = true).
  { destruct (staged_selection_truthy self prompt artists artist_tracks model p v)
      as [H1 H2]. destruct H; auto. }
  split; [assumption|].
  repeat split; intros ->; discriminate.
Qed.

(** ** Surrounding whitespace *)

Lemma is_space_chars (c : N) : is_space c = true -> In c space_chars.
Proof.
  unfold is_space, space_chars.
  rewrite !orb_true_iff, !andb_true_iff, !N.leb_le, !N.eqb_eq.
  cbn [In]. lia.
Qed.

Lemma space_skipped_or_refused (c : N) :
  is_space c = true -> skipped_or_refused c = true.
Proof.
  intros H. apply is_space_chars in H.
  assert (A : Forall (fun c => skipped_or_refused c = true) space_chars).
  { unfold space_chars.
    repeat (apply List.Forall_cons; [vm_compute; reflexivity|]).
    apply List.Forall_nil. }
  rewrite List.Forall_forall in A. now apply A.
Qed.

Lemma lstrip_app_space (pre s : pystr) :
  forallb is_space pre = true -> lstrip (pre ++ s) = lstrip s.
Proof.
  induction pre as [|c pre IH]; [reflexivity|].
  cbn [forallb app lstrip]. intros H. apply andb_true_iff in H as [-> H]. auto.
Qed.

Lemma lstrip_nil_space (s : pystr) : lstrip s = [] -> forallb is_space s = true.
Proof.
  induction s as [|c s IH]; [reflexivity|].
  cbn [lstrip forallb]. destruct (is_space c); [auto|discriminate].
Qed.

Lemma lstrip_app_kept (s post : pystr) :
  lstrip s <> [] -> lstrip (s ++ post) = lstrip s ++ post.
Proof.
  induction s as [|c s IH]; cbn [lstrip app]; [intros H; now contradiction H|].
  destruct (is_space c); [auto|reflexivity].
Qed.

Lemma forallb_rev (f : N -> bool) (s : pystr) :
  forallb f (rev s) = forallb f s.
Proof.
  induction s as [|c s IH]; [reflexivity|].
  cbn [rev forallb]. rewrite forallb_app, IH. cbn. rewrite andb_true_r.
  apply andb_comm.
Qed.

Lemma strip_padding (pre s post : pystr) :
  forallb is_space pre = true -> forallb is_space post = true ->
  strip (pre ++ s ++ post) = strip s.
Proof.
  intros Hpre Hpost. unfold strip. rewrite (lstrip_app_space _ _ Hpre).
  destruct (lstrip s) as [|c r] eqn:E.
  - assert (Hs : forallb is_space (s ++ post) = true).
    { rewrite forallb_app, Hpost, (lstrip_nil_space _ E). reflexivity. }
    rewrite <- (app_nil_r (s ++ post)), (lstrip_app_space _ _ Hs). reflexivity.
  - rewrite lstrip_app_kept by (rewrite E; discriminate).
    rewrite E, rev_app_distr.
    rewrite lstrip_app_space by (now rewrite forallb_rev). reflexivity.
Qed.

(** X6.  The staged validator does not see whitespace around the text: a
    response padded on either side with characters that [str.strip] removes
    (blanks, line breaks, tabs, form feeds, no-break spaces, ...) has the
    outcome of the bare response, the text carried by a JSONDecodeError
    included. *)
Theorem parse_ignores_padding (field msg pre response post : pystr) :
  forallb is_space pre = true -> forallb is_space post = true ->
  parse field msg (pre ++ response ++ post) = parse field msg response.
Proof.
  intros Hpre Hpost. unfold parse.
  now rewrite (strip_padding _ _ _ Hpre Hpost).
Qed.


(** The decoder on a text and on its trimmed form. *)
Lemma decode_cons_space (doc : pystr) (pst : parse_state) (c : N) (s : pystr)
    (v : value) :
  is_space c = true ->
  decode_run doc LStart pst (c :: s) = Return v ->
  decode_run doc LStart pst s = Return v.
Proof.
  intros Hc. apply space_skipped_or_refused in Hc.
  unfold skipped_or_refused in Hc. rewrite !andb_true_iff in Hc.
  destruct Hc as [[[[[[[[Hc _] _] _] _] _] _] _] _].
  cbn [decode_run]. unfold decode_step. cbn [number_guard lex_step].
  destruct (lex_start c) as [[[| | | | |] [|]]|]; try discriminate; cbn; auto.
Qed.

Lemma decode_lstrip (doc : pystr) (pst : parse_state) (s : pystr) (v : value) :
  decode_run doc LStart pst s = Return v ->
  decode_run doc LStart pst (lstrip s) = Return v.
Proof.
  induction s as [|c s IH]; [auto|].
  cbn [lstrip]. destruct (is_space c) eqn:Hc; [|auto].
  intros H. apply IH. exact (decode_cons_space _ _ _ _ _ Hc H).
Qed.

Lemma decode_one_space (doc : pystr) (lst : lex_state) (pst : parse_state) (c : N)
    (v : value) :
  is_space c = true ->
  decode_run doc lst pst [c] = Return v -> decode_finish doc lst pst = Return v.
Proof.
  intros Hc. apply space_skipped_or_refused in Hc.
  unfold skipped_or_refused in Hc. rewrite !andb_true_iff, !negb_true_iff in Hc.
  destruct Hc as [[[[[[[[Hs Hq] Hb] Hu] Hi] He] Hh] Hn] Hl].
  assert (Hstart : lex_start c = None \/ lex_start c = Some (LStart, [])).
  { destruct (lex_start c) as [[[| | | | |] [|]]|]; try discriminate; auto. }
  cbn [decode_run]. unfold decode_step, decode_finish.
  destruct lst as [|acc hi|acc hi|acc hi n code|chars|chars];
    cbn [number_guard lex_step lex_finish].
  - destruct Hstart as [-> | ->]; cbn; [discriminate|auto].
  - rewrite Hq, Hb. destruct (c <? 32); cbn; discriminate.
  - rewrite Hu. destruct (escape_char c); [discriminate|]. cbn. discriminate.
  - destruct (hex_digit c); [discriminate|]. cbn. discriminate.
  - rewrite Hn, Hi, andb_false_r. cbn [orb].
    destruct (negb (accepts_value pst)); cbn; [discriminate|].
    destruct (match integer_digits (rev chars) with
              | Some n => if too_many_digits n
                          then Raise (digits_error int_max_str_digits n)
                          else Return tt
              | None => Return tt
              end) as [[]|e]; cbn; [|discriminate].
    destruct (scan_number (rev chars)) as [w|]; cbn; [|discriminate].
    destruct Hstart as [-> | ->]; cbn; [discriminate|].
    destruct (parse_step pst (TScalar w)); cbn; auto.
  - rewrite Hl.
    destruct (scan_word (rev chars)) as [w|]; cbn; [|discriminate].
    destruct Hstart as [-> | ->]; cbn; [discriminate|].
    destruct (parse_step pst (TScalar w)); cbn; auto.
Qed.

Lemma decode_snoc_space (doc : pystr) (lst : lex_state) (pst : parse_state)
    (s : pystr) (c : N) (v : value) :
  is_space c = true ->
  decode_run doc lst pst (s ++ [c]) = Return v -> decode_run doc lst pst s = Return v.
Proof.
  intros Hc. revert lst pst. induction s as [|a s IH]; intros lst pst.
  - apply (decode_one_space _ _ _ _ _ Hc).
  - cbn [app decode_run].
    destruct (decode_step doc lst pst a) as [[lst' pst']|e]; cbn; [apply IH|auto].
Qed.

Lemma decode_rstrip (doc : pystr) (lst : lex_state) (pst : parse_state) (s : pystr)
    (v : value) :
  decode_run doc lst pst s = Return v ->
  decode_run doc lst pst (rev (lstrip (rev s))) = Return v.
Proof.
  induction s as [|c s IH] using rev_ind; [auto|].
  rewrite rev_app_distr. cbn [rev app lstrip].
  destruct (is_space c) eqn:Hc.
  - intros H. apply IH. exact (decode_snoc_space _ _ _ _ _ _ Hc H).
  - change (c :: rev s) with ([c] ++ rev s).
    now rewrite rev_app_distr, rev_involutive.
Qed.

Lemma json_loads_strip (s : pystr) (v : value) :
  json_loads s = Return v -> json_loads (strip s) = Return v.
Proof.
  unfold json_loads, strip. intros H.
  apply decode_rstrip, decode_lstrip. exact (decode_return_doc _ _ _ _ _ _ H).
Qed.
(** X7.  The staged artist selection accepts whatever the single-stage operation
    accepts, short of empty selections: when, on the same answer of the
    provider, [get_recommendations] returns a truthy value,
    [get_artist_recommendations] returns that value too. *)
Theorem staged_agrees_with_single_stage (self : LLMService) (prompt : pystr)
    (artists : list Artist) (model : pystr) (p : provider) (text : pystr)
    (v : value) :
  p (recommendations_request self prompt artists model) = Text text ->
  p (artist_request self prompt artists model) = Text text ->
  outcome (get_recommendations self prompt artists model p) = Return v ->
  truthy v = true ->
  outcome (get_artist_recommendations self prompt artists model p) = Return v.
Proof.
  intros H1 H2. rewrite (single_stage_cases _ _ _ _ _ _ H1).
  unfold get_artist_recommendations. rewrite outcome_call, H2.
  destruct (json_loads text) as [[| | | | | |d]|e] eqn:E; try discriminate.
  intros [= <-] Ht.
  rewrite parse_cases, (json_loads_strip _ _ E). unfold dict_get. now rewrite Ht.
Qed.

(** ** What of the catalog reaches the artist prompt *)

Lemma expected_lines_listing (artists : list Artist) :
  expected_lines artists
  = List.map (fun e => artist_line e.1 e.2) (listing artists).
Proof.
  induction artists as [|a artists IH]; [reflexivity|].
  rewrite expected_lines_cons. unfold listing in *. cbn [omap list_omap].
  destruct (shown_name a); cbn; now rewrite IH.
Qed.

Lemma artist_context_listing (artists : list Artist) :
  artist_context artists
  = (py "Available artists and their genres:" ++ nl)
    ++ join nl (List.map (fun e => artist_line e.1 e.2) (listing artists)).
Proof.
  unfold artist_context.
  now rewrite comprehension_lines, expected_lines_listing.
Qed.

(** X8.  Only the names and genres of the named artists reach the provider: two
    catalogs that list the same names with the same genres in the same
    order, whatever their identifiers and whatever artists without a name
    they hold, lead both artist-selection operations to send the same
    request. *)
Theorem request_depends_on_listing (self : LLMService) (prompt : pystr)
    (artists artists' : list Artist) (model : pystr) :
  listing artists = listing artists' ->
  artist_request self prompt artists model
  = artist_request self prompt artists' model /\
  recommendations_request self prompt artists model
  = recommendations_request self prompt artists' model.
Proof.
  intros H.
  assert (E : artist_context artists = artist_context artists')
    by (now rewrite !artist_context_listing, H).
  unfold artist_request, recommendations_request.
  change (recommendations_context artists) with (artist_context artists).
  change (recommendations_context artists') with (artist_context artists').
  now rewrite E.
Qed.

Lemma request_depends_on_listing_witness :
  artist_request built_service (py "rock")
    [ {| id := py "1"; name := Some (py "Artist 1"); genres := [py "Rock"] |};
      {| id := py "7"; name := None; genres := [py "Pop"] |} ] (py "gpt-4")
  = artist_request built_service (py "rock")
    [ {| id := py "42"; name := Some (py "Artist 1"); genres := [py "Rock"] |} ]
    (py "gpt-4").
Proof.
  apply request_depends_on_listing. reflexivity.
Defined.

(** X9.  With no named artist in the catalog (an empty catalog included) the
    context block is the heading and a line break, with nothing after it;
    the operations do not refuse such a catalog. *)
Theorem artist_context_without_names (artists : list Artist) :
  (forall a, In a artists -> shown_name a = None) ->
  artist_context artists = py "Available artists and their genres:" ++ [10] /\
  recommendations_context artists = py "Available artists and their genres:" ++ [10].
Proof.
  intros H.
  assert (E : listing artists = []).
  { induction artists as [|a artists IH]; [reflexivity|].
    unfold listing in *. cbn [omap list_omap].
    rewrite (H a) by now left. cbn. apply IH. intros b Hb. apply H. now right. }
  change (recommendations_context artists) with (artist_context artists).
  rewrite artist_context_listing, E. cbn [List.map join].
  now rewrite app_nil_r.
Qed.

Lemma artist_context_without_names_witness :
  artist_context [ {| id := py "1"; name := Some []; genres := [py "Rock"] |};
                   {| id := py "2"; name := None; genres := [] |} ]
  = py "Available artists and their genres:" ++ [10].
Proof.
  apply artist_context_without_names.
  intros a [<-|[<-|[]]]; reflexivity.
Defined.

(** ** The track context block *)

Lemma unlines_app (xs ys : list pystr) :
  unlines (xs ++ ys) = unlines xs ++ unlines ys.
Proof. unfold unlines. now rewrite List.map_app, List.concat_app. Qed.

Ltac flatten_app :=
  repeat first [rewrite <- app_assoc | rewrite <- List.app_comm_cons];
  cbn [app].

Lemma unlines_cons (l : pystr) (ls : list pystr) :
  unlines (l :: ls) = l ++ 10 :: unlines ls.
Proof. unfold unlines. cbn [List.map List.concat]. now rewrite <- app_assoc. Qed.

Lemma track_loop (ts : list Track) (ctx : pystr) :
  fold_left (fun ctx track => ctx ++ py "- " ++ title track ++ nl) ts ctx
  = ctx ++ unlines (List.map (fun t => py "- " ++ title t) ts).
Proof.
  revert ctx. induction ts as [|t ts IH]; intros ctx; cbn [fold_left List.map].
  - now rewrite app_nil_r.
  - rewrite IH, unlines_cons. unfold nl. now flatten_app.
Qed.

Lemma album_loop (albums : list Album) (ctx : pystr) :
  fold_left
    (fun ctx album =>
       fold_left (fun ctx track => ctx ++ py "- " ++ title track ++ nl)
                 (tracks album)
                 (ctx ++ py "Album: " ++ album_name album ++ nl))
    albums ctx
  = ctx ++ unlines (List.flat_map album_lines albums).
Proof.
  revert ctx. induction albums as [|album albums IH]; intros ctx;
    cbn [fold_left List.flat_map].
  - now rewrite app_nil_r.
  - rewrite IH, track_loop, unlines_app.
    change (album_lines album)
      with ((py "Album: " ++ album_name album)
            :: List.map (fun t => py "- " ++ title t) (tracks album)).
    rewrite unlines_cons. unfold nl. now flatten_app.
Qed.

Lemma artist_loop (artist_tracks : list (pystr * list Album)) (ctx : pystr) :
  fold_left
    (fun ctx '(artist, albums) =>
       fold_left
         (fun ctx album =>
            fold_left (fun ctx track => ctx ++ py "- " ++ title track ++ nl)
                      (tracks album)
                      (ctx ++ py "Album: " ++ album_name album ++ nl))
         albums
         (ctx ++ nl ++ artist ++ py ":" ++ nl))
    artist_tracks ctx
  = ctx ++ unlines (List.flat_map artist_lines artist_tracks).
Proof.
  revert ctx. induction artist_tracks as [|[artist albums] rest IH]; intros ctx;
    cbn [fold_left List.flat_map].
  - now rewrite app_nil_r.
  - rewrite IH, album_loop, unlines_app.
    change (artist_lines (artist, albums))
      with ([] :: (artist ++ py ":") :: List.flat_map album_lines albums).
    rewrite !unlines_cons. unfold nl. now flatten_app.
Qed.

Lemma tracks_context_flat (artist_tracks : list (pystr * list Album)) :
  tracks_context artist_tracks = unlines (tracks_lines artist_tracks).
Proof.
  unfold tracks_context. rewrite artist_loop. unfold tracks_lines.
  rewrite unlines_cons. unfold nl. now flatten_app.
Qed.

(** X10.  The three nested loops of [get_track_recommendations] write the track
    context line by line: the heading, then for each artist, in catalog
    order, an empty line and the name followed by a colon, then for each of
    the artist's albums its name after "Album: " and one "- title" line per
    track; every line, the last one included, ends with a line break.  An
    artist without albums keeps its two lines, an album without tracks its
    one. *)
Theorem tracks_context_unlines (artist_tracks : list (pystr * list Album)) :
  tracks_context artist_tracks = unlines (tracks_lines artist_tracks).
Proof. apply tracks_context_flat. Qed.

Lemma split_unlines (ls : list pystr) :
  Forall (fun l => ~ In 10 l) ls -> split 10 (unlines ls) = ls ++ [[]].
Proof.
  induction 1 as [|l ls Hl _ IH]; [reflexivity|].
  rewrite unlines_cons, split_app_sep by assumption. now rewrite IH.
Qed.

Lemma py_line_break_free (prefix s : pystr) :
  ~ In 10 prefix -> ~ In 10 s -> ~ In 10 (prefix ++ s).
Proof. intros Hp Hs. rewrite in_app_iff. tauto. Qed.

Lemma album_lines_single (album : Album) :
  ~ In 10 (album_name album) ->
  Forall (fun t => ~ In 10 (title t)) (tracks album) ->
  Forall (fun l => ~ In 10 l) (album_lines album).
Proof.
  intros Hname Htracks. unfold album_lines. apply List.Forall_cons.
  - apply py_line_break_free; [vm_compute; intuition discriminate|assumption].
  - induction Htracks as [|t ts Ht _ IH]; cbn [List.map]; [apply List.Forall_nil|].
    apply List.Forall_cons; [|assumption].
    apply py_line_break_free; [vm_compute; intuition discriminate|assumption].
Qed.

Lemma artist_lines_single (entry : pystr * list Album) :
  entry_single_line entry -> Forall (fun l => ~ In 10 l) (artist_lines entry).
Proof.
  destruct entry as [artist albums]. intros [Hartist Halbums]. cbn [fst snd] in *.
  unfold artist_lines. cbn [fst snd].
  apply List.Forall_cons; [intros []|].
  apply List.Forall_cons.
  - apply py_line_break_free; [assumption|vm_compute; intuition discriminate].
  - induction Halbums as [|album albums [Hn Ht] _ IH]; cbn [List.flat_map];
      [apply List.Forall_nil|].
    apply List.Forall_app. split; [now apply album_lines_single|assumption].
Qed.

Lemma tracks_lines_single (artist_tracks : list (pystr * list Album)) :
  Forall entry_single_line artist_tracks ->
  Forall (fun l => ~ In 10 l) (tracks_lines artist_tracks).
Proof.
  intros H. unfold tracks_lines. apply List.Forall_cons.
  - vm_compute. intuition discriminate.
  - induction H as [|entry rest He _ IH]; cbn [List.flat_map];
      [apply List.Forall_nil|].
    apply List.Forall_app. split; [now apply artist_lines_single|assumption].
Qed.

(** X11.  When no artist name, album name or track title of the catalog holds a
    line break, the lines of the track context are exactly the heading
    followed, per artist in catalog order, by an empty line, the artist's
    name with a colon, and per album its Album line and its track lines;
    the block ends with a line break, so an empty piece follows the last
    line. *)
Theorem tracks_context_lines (artist_tracks : list (pystr * list Album)) :
  Forall entry_single_line artist_tracks ->
  split 10 (tracks_context artist_tracks) = tracks_lines artist_tracks ++ [[]].
Proof.
  intros H. rewrite tracks_context_flat.
  apply split_unlines. now apply tracks_lines_single.
Qed.

Lemma tracks_context_lines_witness :
  split 10 (tracks_context
              [ (py "Artist 1",
                 [ {| album_name := py "First"; tracks := [ {| title := py "Song 1" |} ] |};
                   {| album_name := py "Empty"; tracks := [] |} ]);
                (py "Artist 2", []) ])
  = [ py "Available tracks by artist:"; []; py "Artist 1:"; py "Album: First";
      py "- Song 1"; py "Album: Empty"; []; py "Artist 2:"; [] ].
Proof.
  apply (tracks_context_lines
           [ (py "Artist 1",
              [ {| album_name := py "First"; tracks := [ {| title := py "Song 1" |} ] |};
                {| album_name := py "Empty"; tracks := [] |} ]);
             (py "Artist 2", []) ]).
  repeat first [ apply List.Forall_nil
               | apply List.Forall_cons
               | split
               | (vm_compute; intuition discriminate) ].
Defined.

Lemma contains_app (needle pre post : pystr) :
  contains needle (pre ++ needle ++ post) = true.
Proof.
  induction pre as [|c pre IH].
  - cbn [app]. destruct (needle ++ post) eqn:E; cbn [contains];
      rewrite <- E, is_prefix_app; reflexivity.
  - cbn [app contains]. rewrite IH. apply orb_true_r.
Qed.

Lemma line_in_unlines (l : pystr) (ls : list pystr) :
  In l ls ->
  exists pre post, 10 :: unlines ls = pre ++ (10 :: l ++ [10]) ++ post.
Proof.
  induction ls as [|x ls IH]; [intros []|].
  intros [->|H].
  - exists [], (unlines ls). rewrite unlines_cons. now flatten_app.
  - destruct (IH H) as (pre & post & E).
    exists (10 :: x ++ pre), post. rewrite unlines_cons, E. now flatten_app.
Qed.

Lemma line_in_tracks_context (l : pystr) (artist_tracks : list (pystr * list Album)) :
  In l (List.flat_map artist_lines artist_tracks) ->
  contains (10 :: l ++ [10]) (tracks_context artist_tracks) = true.
Proof.
  intros H. rewrite tracks_context_flat. unfold tracks_lines.
  rewrite unlines_cons.
  destruct (line_in_unlines _ _ H) as (pre & post & ->).
  rewrite app_assoc. apply contains_app.
Qed.

(** X12.  Everything in the catalog is offered to the model: for every artist of
    the catalog, each of the artist's albums and each track of such an
    album, the track context holds the line of the artist, the line of the
    album and the line of the track, whatever characters the names hold. *)
Theorem tracks_context_offers_catalog (artist_tracks : list (pystr * list Album))
    (artist : pystr) (albums : list Album) (album : Album) (track : Track) :
  In (artist, albums) artist_tracks ->
  (contains ([10] ++ artist ++ py ":" ++ [10]) (tracks_context artist_tracks) = true) /\
  (In album albums ->
   contains ([10] ++ py "Album: " ++ album_name album ++ [10])
            (tracks_context artist_tracks) = true) /\
  (In album albums -> In track (tracks album) ->
   contains ([10] ++ py "- " ++ title track ++ [10])
            (tracks_context artist_tracks) = true).
Proof.
  intros Hartist.
  assert (Hin : forall l, In l (artist_lines (artist, albums)) ->
                          In l (List.flat_map artist_lines artist_tracks)).
  { intros l Hl. apply in_flat_map. eauto. }
  assert (Halbum : forall l, In album albums -> In l (album_lines album) ->
                             In l (artist_lines (artist, albums))).
  { intros l Ha Hl. unfold artist_lines. cbn [fst snd]. right. right.
    apply in_flat_map. eauto. }
  split; [|split].
  - replace ([10] ++ artist ++ py ":" ++ [10])
      with (10 :: (artist ++ py ":") ++ [10]) by now flatten_app.
    apply line_in_tracks_context, Hin. right. now left.
  - intros Ha.
    replace ([10] ++ py "Album: " ++ album_name album ++ [10])
      with (10 :: (py "Album: " ++ album_name album) ++ [10]) by now flatten_app.
    apply line_in_tracks_context, Hin, (Halbum _ Ha). now left.
  - intros Ha Ht.
    replace ([10] ++ py "- " ++ title track ++ [10])
      with (10 :: (py "- " ++ title track) ++ [10]) by now flatten_app.
    apply line_in_tracks_context, Hin, (Halbum _ Ha). right.
    apply (in_map (fun t => py "- " ++ title t)), Ht.
Qed.

Lemma tracks_context_offers_catalog_witness :
  contains ([10] ++ py "- " ++ py "Song 1" ++ [10])
    (tracks_context
       [ (py "Artist 1",
          [ {| album_name := py "First"; tracks := [ {| title := py "Song 1" |} ] |} ]) ])
  = true.
Proof.
  refine (proj2 (proj2 (tracks_context_offers_catalog
            [ (py "Artist 1",
               [ {| album_name := py "First"; tracks := [ {| title := py "Song 1" |} ] |} ]) ]
            (py "Artist 1")
            [ {| album_name := py "First"; tracks := [ {| title := py "Song 1" |} ] |} ]
            {| album_name := py "First"; tracks := [ {| title := py "Song 1" |} ] |}
            {| title := py "Song 1" |} _)) _ _); now left.
Defined.

(** ** Writing a selection and reading it back *)

Lemma strip_encode_object (d : list (pystr * value)) :
  strip (encode (VDict d)) = encode (VDict d).
Proof.
  change (encode (VDict d))
    with (123 :: join [44] (List.map (fun '(k, x) => quote k ++ [58] ++ encode x) d)
              ++ [125]).
  now apply strip_fixed.
Qed.

Lemma parse_written_object (field msg pre post : pystr)
    (d : list (pystr * value)) :
  writable (VDict d) = true ->
  (height (VDict d) <= nesting_limit)%nat ->
  forallb is_space pre = true -> forallb is_space post = true ->
  parse field msg (pre ++ encode (VDict d) ++ post)
  = match dict_lookup d field with
    | Some selection =>
        if truthy selection then Return selection else Raise (ValueError msg)
    | None => Raise (ValueError msg)
    end.
Proof.
  intros Hd Hh Hpre Hpost.
  rewrite parse_cases, (strip_padding _ _ _ Hpre Hpost), strip_encode_object,
    (json_loads_written _ Hd Hh).
  unfold dict_get. destruct (dict_lookup d field); reflexivity.
Qed.

(** X13.  The staged validator reads back what the writer wrote.  For every
    object of writable values (strings of plain characters, lists and
    nested objects with distinct keys) nested no deeper than the
    interpreter affords, written compactly and padded with any whitespace,
    the validator returns the value of the expected field exactly as it
    was written, the other fields being ignored; it raises the ValueError
    when that value is empty or the field is not among the keys. *)
Theorem parse_reads_written_object (field msg pre post : pystr)
    (d : list (pystr * value)) :
  writable (VDict d) = true ->
  (height (VDict d) <= nesting_limit)%nat ->
  forallb is_space pre = true -> forallb is_space post = true ->
  parse field msg (pre ++ encode (VDict d) ++ post)
  = match dict_lookup d field with
    | Some selection =>
        if truthy selection then Return selection else Raise (ValueError msg)
    | None => Raise (ValueError msg)
    end.
Proof. apply parse_written_object. Qed.

Lemma track_records_writable (selection : list (pystr * pystr)) :
  Forall (fun e => forallb plain e.1 = true /\ forallb plain e.2 = true) selection ->
  forallb writable (List.map track_record selection) = true /\
  forallb track_record_shape (List.map track_record selection) = true.
Proof.
  induction 1 as [|[a t] selection [Ha Ht] _ [IH1 IH2]]; [split; reflexivity|].
  cbn [fst snd] in Ha, Ht. cbn [List.map forallb]. rewrite IH1, IH2.
  split; [|reflexivity].
  unfold track_record. cbn [fst snd writable forallb]. rewrite Ha, Ht.
  vm_compute. reflexivity.
Qed.

Lemma track_records_height (selection : list (pystr * pystr)) :
  (list_max (List.map height (List.map track_record selection)) <= 1)%nat.
Proof.
  induction selection as [|[a t] selection IH]; [cbn; lia|].
  change (list_max (List.map height (List.map track_record ((a, t) :: selection))))
    with (Nat.max (height (track_record (a, t)))
            (list_max (List.map height (List.map track_record selection)))).
  change (height (track_record (a, t))) with 1%nat. lia.
Qed.

(** X14.  The track selection survives the round trip through the provider: when
    the provider answers the request of [get_track_recommendations] with
    the written form of a non-empty list of artist/title records over plain
    characters under the key tracks, the operation returns exactly these
    records, in that order, repetitions included, and the result has the
    advertised shape. *)
Theorem track_selection_round_trip (self : LLMService) (prompt : pystr)
    (artist_tracks : list (pystr * list Album)) (model : pystr) (p : provider)
    (selection : list (pystr * pystr)) :
  selection <> [] ->
  Forall (fun e => forallb plain e.1 = true /\ forallb plain e.2 = true) selection ->
  p (track_request self prompt artist_tracks model)
  = Text (encode (VDict [(py "tracks", VList (List.map track_record selection))])) ->
  outcome (get_track_recommendations self prompt artist_tracks model p)
  = Return (VList (List.map track_record selection)) /\
  track_selection_shape (VList (List.map track_record selection)) = true.
Proof.
  intros Hne Hplain Hp.
  destruct (track_records_writable _ Hplain) as [Hw Hshape].
  split; [|exact Hshape].
  unfold get_track_recommendations. rewrite outcome_call, Hp.
  rewrite <- (app_nil_r (encode _)).
  change (encode ?v ++ []) with ([] ++ encode v ++ []).
  rewrite parse_written_object; try reflexivity.
  - change (dict_lookup _ _) with (Some (VList (List.map track_record selection))).
    destruct selection; [congruence|reflexivity].
  - cbn [writable forallb]. rewrite Hw. vm_compute. reflexivity.
  - pose proof (track_records_height selection) as Hh.
    change (height (VDict [(py "tracks", VList (List.map track_record selection))]))
      with (S (Nat.max (S (list_max (List.map height (List.map track_record selection))))
                 0)).
    unfold nesting_limit. lia.
Qed.

End Service.

(** * The properties on concrete inputs

    The inputs below are decoded by the interpreter with its default
    limits. *)

#[export] Existing Instance cpython.

(** ** The validator *)



(** Further inputs on which C1 as stated fails: a field that is present and
    is not an empty sequence raises the ValueError, and a success need not
    be a sequence. *)
Example parse_null_field :
  parse (py "artists") no_artists (q "{`artists`: null}") = Raise (ValueError no_artists).
Proof. vm_compute. reflexivity. Qed.

Example parse_tiny_float_field :
  parse (py "artists") no_artists (q "{`artists`: 1e-400}") = Raise (ValueError no_artists).
Proof. vm_compute. reflexivity. Qed.

Example parse_number_field :
  parse (py "artists") no_artists (q "{`artists`: 5}") = Return (VInt 5).
Proof. vm_compute. reflexivity. Qed.

(** An integer of 4301 digits under artists: the text is valid JSON, and
    the validator raises the ValueError of the integer conversion, which
    is neither of the two failures of the service. *)
Example parse_long_integer_field :
  let text := q "{`artists`: " ++ List.repeat 49 4301%nat ++ py "}" in
  (exists v, json_decode (strip text) = Some (VDict [(py "artists", v)])) /\
  parse (py "artists") no_artists text = Raise (digits_error 4300 4301) /\
  is_prefix (py "Exceeds the limit (4300 digits)")
    match digits_error 4300 4301 with ValueError m => m | _ => [] end = true.
Proof.
  cbv zeta. split; [|split].
  - eexists. vm_compute. reflexivity.
  - vm_compute. reflexivity.
  - vm_compute. reflexivity.
Qed.



(** Texts that are not valid JSON and do not raise the JSONDecodeError:
    3000 opening brackets exhaust the nesting the interpreter affords, and
    an opening bracket followed by 4301 digits fails in the integer
    conversion before the missing closing bracket is seen. *)
Example malformed_deep_nesting :
  let text := List.repeat 91 3000%nat in
  json_decode (strip text) = None /\
  parse (py "artists") no_artists text = Raise RecursionError.
Proof. cbv zeta. split; vm_compute; reflexivity. Qed.

Example malformed_long_integer :
  let text := 91 :: List.repeat 49 4301%nat in
  json_decode (strip text) = None /\
  parse (py "artists") no_artists text = Raise (digits_error 4300 4301).
Proof. cbv zeta. split; vm_compute; reflexivity. Qed.

Lemma parse_checks_emptiness_only_witness :
  parse (py "tracks") no_tracks (q "{`tracks`: [{`title`: 7}]}")
  = Return (VList [VDict [(py "title", VInt 7)]]).
Proof.
  refine (proj1 (parse_checks_emptiness_only (py "tracks") no_tracks
                   (q "{`tracks`: [{`title`: 7}]}")
                   [(py "tracks", VList [VDict [(py "title", VInt 7)]])] _)
            (VList [VDict [(py "title", VInt 7)]]) _ _);
    vm_compute; reflexivity.
Defined.

(** C7 as stated fails: a list of numbers is returned as an artist
    selection, and it is not a list of strings. *)
Lemma parse_checks_emptiness_only_counterexample :
  parse (py "artists") no_artists (q "{`artists`: [1, 2]}")
  = Return (VList [VInt 1; VInt 2]) /\
  artist_selection_shape (VList [VInt 1; VInt 2]) = false.
Proof. split; vm_compute; reflexivity. Qed.

Example parse_tracks_wrong_shape :
  parse (py "tracks") no_tracks (q "{`tracks`: `none`}") = Return (VStr (py "none")) /\
  track_selection_shape (VStr (py "none")) = false.
Proof. split; vm_compute; reflexivity. Qed.

(** ** The order of a selection *)

Lemma parse_returns_sequence_as_is_witness :
  parse (py "artists") no_artists (artists_document [py "B"; py "A"; py "B"])
  = Return (VList [VStr (py "B"); VStr (py "A"); VStr (py "B")]).
Proof.
  apply (proj1 parse_returns_sequence_as_is [py "B"; py "A"; py "B"] no_artists).
  - discriminate.
  - repeat (apply List.Forall_cons; [vm_compute; reflexivity|]).
    apply List.Forall_nil.
Defined.

(** ** The operations *)

(** The end-to-end scenario of the spec. *)
Example select_artists_scenario :
  let catalog :=
    [ {| id := py "1"; name := Some (py "Artist 1"); genres := [py "Rock"] |};
      {| id := py "2"; name := Some (py "Artist 2"); genres := [py "Pop"] |} ] in
  let run := get_artist_recommendations built_service (py "rock playlist") catalog
               (py "gpt-4") (mock (q "{`artists`: [`Artist 1`]}")) in
  (LLMService_init (py "sk-test") None ∅).2 = Return built_service /\
  List.map model (sent run) = [py "gpt-4"] /\
  outcome run = Return (VList [VStr (py "Artist 1")]) /\
  Forall (fun req => Forall (fun line =>
            contains line (content (List.last (messages req) {| role := []; content := [] |})) = true)
            [py "Artist 1 - Rock"; py "Artist 2 - Pop"]) (sent run).
Proof.
  cbv zeta. split; [|split; [|split]].
  - reflexivity.
  - vm_compute. reflexivity.
  - vm_compute. reflexivity.
  - repeat constructor.
Qed.

Lemma provider_failure_propagates_witness :
  outcome (get_track_recommendations built_service
             (py "jazz") [] (py "claude") (fun _ => Failure (py "quota exceeded")))
  = Raise (ProviderError (py "quota exceeded")).
Proof.
  unfold outcome.
  rewrite (proj2 (proj2 (provider_failure_propagates
                           built_service (py "jazz") [] []
                           (py "claude") (fun _ => Failure (py "quota exceeded"))
                           (py "quota exceeded"))) eq_refl).
  reflexivity.
Defined.


(** A ValueError of the single-stage operation: the integer conversion of
    the decoder, on a text that is valid JSON. *)
Example single_stage_long_integer :
  let text := q "{`artists`: [`A`], `n`: " ++ List.repeat 49 4301%nat ++ py "}" in
  (exists v, json_decode text = Some v) /\
  outcome (get_recommendations built_service (py "jazz") [] (py "gpt-4") (mock text))
  = Raise (digits_error 4300 4301) /\
  is_ValueError (digits_error 4300 4301) = true /\
  is_ValueError (JSONDecodeError text) = true.
Proof.
  cbv zeta. split; [|split; [|split]].
  - eexists. vm_compute. reflexivity.
  - vm_compute. reflexivity.
  - reflexivity.
  - reflexivity.
Qed.

Lemma staged_selection_never_empty_witness :
  truthy (VList [VStr (py "Artist 1")]) = true.
Proof.
  apply (staged_selection_never_empty built_service
           (py "rock") [] [] (py "gpt-4")
           (mock (q "{`artists`: [`Artist 1`]}")) (VList [VStr (py "Artist 1")])).
  left. vm_compute. reflexivity.
Defined.

Lemma parse_ignores_padding_witness :
  parse (py "artists") no_artists ([12; 10] ++ q "{`artists`: [`A`]}" ++ [160; 10])
  = parse (py "artists") no_artists (q "{`artists`: [`A`]}").
Proof.
  apply parse_ignores_padding; reflexivity.
Defined.

Lemma staged_agrees_with_single_stage_witness :
  outcome (get_artist_recommendations built_service
             (py "rock") [] (py "gpt-4") (mock (q " {`artists`: [`A`]} ")))
  = Return (VList [VStr (py "A")]).
Proof.
  apply (staged_agrees_with_single_stage built_service
           (py "rock") [] (py "gpt-4") (mock (q " {`artists`: [`A`]} "))
           (q " {`artists`: [`A`]} ")); vm_compute; reflexivity.
Defined.

(** The converse fails: the staged operation trims a form feed that the
    decoder of the single-stage operation refuses. *)
Example single_stage_refuses_form_feed :
  let text := [12] ++ q "{`artists`: [`A`]}" in
  outcome (get_artist_recommendations built_service (py "rock") [] (py "gpt-4")
             (mock text))
  = Return (VList [VStr (py "A")]) /\
  outcome (get_recommendations built_service (py "rock") [] (py "gpt-4") (mock text))
  = Raise (JSONDecodeError text).
Proof. split; vm_compute; reflexivity. Qed.

(** ** Writing a selection and reading it back *)

Lemma parse_reads_written_object_witness :
  parse (py "artists") no_artists
    ([10] ++ encode (VDict [ (py "note", VStr (py "ok"));
                             (py "artists", VList [VStr (py "B"); VStr (py "A")]) ])
     ++ [10])
  = Return (VList [VStr (py "B"); VStr (py "A")]).
Proof.
  refine (parse_reads_written_object (py "artists") no_artists [10] [10]
            [ (py "note", VStr (py "ok"));
              (py "artists", VList [VStr (py "B"); VStr (py "A")]) ] _ _ _ _).
  - vm_compute. reflexivity.
  - apply Nat.leb_le. vm_compute. reflexivity.
  - vm_compute. reflexivity.
  - vm_compute. reflexivity.
Defined.

(** Written objects nested deeper than the interpreter affords are not
    read back: 3000 lists one inside the other under artists. *)
Example parse_written_too_deep :
  let d := [(py "artists", Nat.iter 3000 (fun v => VList [v]) (VStr (py "A")))] in
  writable (VDict d) = true /\
  parse (py "artists") no_artists (encode (VDict d)) = Raise RecursionError.
Proof. cbv zeta. split; vm_compute; reflexivity. Qed.

Lemma track_selection_round_trip_witness :
  outcome (get_track_recommendations built_service
             (py "rock") [] (py "gpt-4")
             (mock (encode (VDict [(py "tracks",
                      VList (List.map track_record
                               [(py "Artist 1", py "Song 1");
                                (py "Artist 2", py "Song 2");
                                (py "Artist 1", py "Song 1")]))]))))
  = Return (VList (List.map track_record
                     [(py "Artist 1", py "Song 1");
                      (py "Artist 2", py "Song 2");
                      (py "Artist 1", py "Song 1")])).
Proof.
  refine (proj1 (track_selection_round_trip built_service
                   (py "rock") [] (py "gpt-4") _
                   [(py "Artist 1", py "Song 1");
                    (py "Artist 2", py "Song 2");
                    (py "Artist 1", py "Song 1")] _ _ eq_refl)).
  - discriminate.
  - repeat (apply List.Forall_cons; [split; vm_compute; reflexivity|]).
    apply List.Forall_nil.
Defined.
